(** * Blocky world: first-person camera and scene composition

    A shallow embedding of [src/blockyWorld/main.js]: the camera variables
    ([eye], [forward], [up], [at]), the [move] helper, the [keydown] and
    [mousemove] handlers, the [Cube] class and [drawScene].

    The script talks to two things it does not define itself:
    - the transform library ([Vector3], [Matrix4]), modelled here from the
      data-model section of the specification, over the real numbers;
      the camera handlers are given a second time, in module [Cam], over
      an arithmetic that is a parameter, with the real numbers and IEEE
      binary64 as instances, and what depends on rounding is settled
      there;
    - the WebGL context, modelled as a log of the calls made on it, together
      with a small replay machine that resolves, for every [drawArrays],
      the vertices and uniforms in force.

    [console.log] calls have no effect on any modelled state and are left
    out. *)

From Stdlib Require Import Reals Lra Lia String List Sorted Bool Arith.
From Stdlib Require Floats Uint63.
From Stdlib Require Import QArith_base.
Import ListNotations.
Local Open Scope R_scope.

(* ================================================================= *)
(** ** Transform library *)

Module Vector3.

(** Modelled from the spec: the [Vector3] type of the transform library,
    whose source is not among the examined files ("three floating-point
    components"); the components are taken as real numbers, so [Vector3]
    and [Main] are the script in exact arithmetic.  [Vec] and [Cam] below
    are the same vectors and handlers in any arithmetic. *)
Record t : Type := mk { x : R; y : R; z : R }.

(** Modelled from the spec: [new Vector3()], the library's constructor
    without argument, taken to give the zero vector. *)
Definition zero : t := mk 0 0 0.

(** Modelled from the spec: [Vector3.add] of the library ("supports add"),
    component-wise, "standard Euclidean semantics". *)
Definition add (a b : t) : t := mk (x a + x b) (y a + y b) (z a + z b).

(** Modelled from the spec: [Vector3.sub] of the library ("subtract"). *)
Definition sub (a b : t) : t := mk (x a - x b) (y a - y b) (z a - z b).

(** Modelled from the spec: [Vector3.mul] of the library
    ("scalar-multiply"). *)
Definition mul (a : t) (k : R) : t := mk (x a * k) (y a * k) (z a * k).

(** Modelled from the spec: the Euclidean inner product that the
    testable properties write [dot]. *)
Definition dot (a b : t) : R := x a * x b + y a * y b + z a * z b.

(** Modelled from the spec: [Vector3.cross] of the library ("cross
    product"); the script passes the destination as first argument,
    [Vector3.cross(right, viewDir, up)], here the result is returned. *)
Definition cross (a b : t) : t :=
  mk (y a * z b - z a * y b) (z a * x b - x a * z b) (x a * y b - y a * x b).

(** Modelled from the spec: the Euclidean norm the spec writes [|v|]. *)
Definition magnitude (a : t) : R := sqrt (dot a a).

(** Modelled from the spec: [Vector3.normalize] of the library
    ("normalize"): the vector divided by its norm.  On the zero vector the
    division is by [0], which the real numbers of the Standard Library
    define as [0]. *)
Definition normalize (a : t) : t := mul a (/ magnitude a).

End Vector3.

Module Matrix4.

(** Modelled from the spec: the [Matrix4] type of the transform library
    ("16 floating-point elements in a fixed layout"), column by column:
    [e0 .. e3] is the first column. *)
Record t : Type := mk {
  e0 : R; e1 : R; e2 : R; e3 : R;
  e4 : R; e5 : R; e6 : R; e7 : R;
  e8 : R; e9 : R; e10 : R; e11 : R;
  e12 : R; e13 : R; e14 : R; e15 : R }.

(** Modelled from the spec: [new Matrix4()], the identity. *)
Definition identity : t := mk 1 0 0 0  0 1 0 0  0 0 1 0  0 0 0 1.

(** Modelled from the spec: [Matrix4.setTranslate] ("translate
    ... construction"): the translation by [(x, y, z)]. *)
Definition setTranslate (x y z : R) : t :=
  mk 1 0 0 0  0 1 0 0  0 0 1 0  x y z 1.

(** Modelled from the spec: [Matrix4.scale] ("scale"): the matrix
    multiplied on the right by the scaling by [(x, y, z)]. *)
Definition scale (m : t) (x y z : R) : t :=
  mk (e0 m * x) (e1 m * x) (e2 m * x) (e3 m * x)
     (e4 m * y) (e5 m * y) (e6 m * y) (e7 m * y)
     (e8 m * z) (e9 m * z) (e10 m * z) (e11 m * z)
     (e12 m) (e13 m) (e14 m) (e15 m).

(** Modelled from the spec: [Matrix4.translate]: the matrix multiplied on
    the right by the translation by [(x, y, z)]. *)
Definition translate (m : t) (x y z : R) : t :=
  mk (e0 m) (e1 m) (e2 m) (e3 m)
     (e4 m) (e5 m) (e6 m) (e7 m)
     (e8 m) (e9 m) (e10 m) (e11 m)
     (e12 m + (e0 m * x + e4 m * y + e8 m * z))
     (e13 m + (e1 m * x + e5 m * y + e9 m * z))
     (e14 m + (e2 m * x + e6 m * y + e10 m * z))
     (e15 m + (e3 m * x + e7 m * y + e11 m * z)).

(** Modelled from the spec: [Matrix4.setRotate] ("rotate"): the rotation
    by [angle] degrees about the axis [(x, y, z)], which is normalized
    first, counter-clockwise when the axis points at the viewer. *)
Definition setRotate (angle x y z : R) : t :=
  let a := PI * angle / 180 in
  let s := sin a in
  let c := cos a in
  let len := sqrt (x * x + y * y + z * z) in
  let x := x / len in
  let y := y / len in
  let z := z / len in
  let nc := 1 - c in
  mk (x * x * nc + c) (x * y * nc + z * s) (z * x * nc - y * s) 0
     (x * y * nc - z * s) (y * y * nc + c) (y * z * nc + x * s) 0
     (z * x * nc + y * s) (y * z * nc - x * s) (z * z * nc + c) 0
     0 0 0 1.

(** Modelled from the spec: [Matrix4.multiplyVector3]: the matrix applied
    to a point. *)
Definition multiplyVector3 (m : t) (p : Vector3.t) : Vector3.t :=
  Vector3.mk
    (Vector3.x p * e0 m + Vector3.y p * e4 m + Vector3.z p * e8 m + e12 m)
    (Vector3.x p * e1 m + Vector3.y p * e5 m + Vector3.z p * e9 m + e13 m)
    (Vector3.x p * e2 m + Vector3.y p * e6 m + Vector3.z p * e10 m + e14 m).

(** Modelled from the spec: [Matrix4.setLookAt] ("a view transform
    constructed from an eye position, a target point, and an up vector,
    orienting the camera to face the target"). *)
Definition setLookAt (eye center up : Vector3.t) : t :=
  let f := Vector3.normalize (Vector3.sub center eye) in
  let s := Vector3.normalize (Vector3.cross f up) in
  let u := Vector3.cross s f in
  translate
    (mk (Vector3.x s) (Vector3.x u) (- Vector3.x f) 0
        (Vector3.y s) (Vector3.y u) (- Vector3.y f) 0
        (Vector3.z s) (Vector3.z u) (- Vector3.z f) 0
        0 0 0 1)
    (- Vector3.x eye) (- Vector3.y eye) (- Vector3.z eye).

(** Modelled from the spec: [Matrix4.setPerspective] ("a projection
    transform mapping a view frustum (field of view, aspect ratio,
    near/far planes) to normalized device coordinates"). *)
Definition setPerspective (fovy aspect near far : R) : t :=
  let half := PI * fovy / 180 / 2 in
  let ct := cos half / sin half in
  let rd := / (far - near) in
  mk (ct / aspect) 0 0 0
     0 ct 0 0
     0 0 (- (far + near) * rd) (-1)
     0 0 (-2 * near * far * rd) 0.

End Matrix4.

(* ================================================================= *)
(** ** The WebGL context *)

Module GL.

(** The uniform and attribute locations the script looks up by name in
    the shading program. *)
Inductive Uniform : Type :=
| u_Sampler | u_ModelMatrix | u_ViewMatrix | u_ProjectionMatrix
| u_texColorWeight | u_baseColor.

Inductive Attrib : Type := a_Position | a_UV.

Inductive Mode : Type :=
| POINTS | LINES | LINE_LOOP | LINE_STRIP
| TRIANGLES | TRIANGLE_STRIP | TRIANGLE_FAN.

Inductive ClearBit : Type := COLOR_BUFFER_BIT | DEPTH_BUFFER_BIT.

(** A buffer handle, as [gl.createBuffer()] returns it. *)
Definition Buffer : Type := nat.

(** The calls the modelled part of the script makes on [gl].  Buffer calls
    are all on the [ARRAY_BUFFER] target, with usage [STATIC_DRAW] and
    component type [FLOAT], as in the source. *)
Inductive Call : Type :=
| clearColor (r g b a : R)
| clear (mask : list ClearBit)
| uniformMatrix4fv (u : Uniform) (transpose : bool) (m : Matrix4.t)
| uniform1f (u : Uniform) (v : R)
| uniform4fv (u : Uniform) (v : list R)
| createBuffer (b : Buffer)
| bindBuffer (b : Buffer)
| bufferData (data : list R)
| vertexAttribPointer (a : Attrib) (size : nat) (normalized : bool)
                      (stride offset : nat)
| enableVertexAttribArray (a : Attrib)
| drawArrays (mode : Mode) (first count : nat).

(** The context as the script sees it: the handle the next
    [createBuffer] returns, and the calls made so far, oldest first. *)
Record Context : Type := mkContext { next_buffer : Buffer; calls : list Call }.

(** *** A state monad over the context *)

Definition M (A : Type) : Type := Context -> A * Context.

Definition ret {A : Type} (a : A) : M A := fun g => (a, g).

Definition bind {A B : Type} (m : M A) (k : A -> M B) : M B :=
  fun g => let (a, g') := m g in k a g'.

Definition exec {A : Type} (m : M A) (g : Context) : Context := snd (m g).

(** One call on the context, appended to the log. *)
Definition emit (c : Call) : M unit :=
  fun g => (tt, mkContext (next_buffer g) (calls g ++ [c])).

(** [gl.createBuffer()]: a fresh handle. *)
Definition newBuffer : M Buffer :=
  fun g => (next_buffer g,
            mkContext (S (next_buffer g)) (calls g ++ [createBuffer (next_buffer g)])).

(** [for (let i = 0; i < n; i++) body(i)], counting from [from]. *)
Fixpoint for_from (from n : nat) (body : nat -> M unit) : M unit :=
  match n with
  | O => ret tt
  | S n' => bind (body from) (fun _ => for_from (S from) n' body)
  end.

Definition for_upto (n : nat) (body : nat -> M unit) : M unit :=
  for_from 0 n body.

(** *** What a log draws

    The replay machine keeps what a [drawArrays] reads: the bound array
    buffer, the contents of every buffer, the pointer of each attribute
    and the three per-cube uniforms. *)

Record Pointer : Type := mkPointer {
  p_buffer : Buffer; p_size : nat; p_stride : nat; p_offset : nat }.

Record Machine : Type := mkMachine {
  array_buffer : option Buffer;
  store : list (Buffer * list R);
  position : option Pointer;
  uv : option Pointer;
  modelMatrix : option Matrix4.t;
  texColorWeight : option R;
  baseColor : option (list R) }.

Definition power_on : Machine :=
  mkMachine None [] None None None None None.

(** One draw call as the pipeline sees it. *)
Record Draw : Type := mkDraw {
  d_mode : Mode;
  d_positions : list (list R);
  d_uvs : list (list R);
  d_model : option Matrix4.t;
  d_texWeight : option R;
  d_baseColor : option (list R) }.

(** Size in bytes of one element of a [Float32Array]. *)
Definition FSIZE : nat := 4.

Fixpoint lookup (b : Buffer) (s : list (Buffer * list R)) : list R :=
  match s with
  | [] => []
  | (b', d) :: s' => if Nat.eqb b b' then d else lookup b s'
  end.

(** The components of vertex [k] of an attribute. *)
Definition fetch (s : list (Buffer * list R)) (p : option Pointer) (k : nat)
  : list R :=
  match p with
  | None => []
  | Some p =>
      firstn (p_size p)
        (skipn ((p_offset p + k * p_stride p) / FSIZE) (lookup (p_buffer p) s))
  end.

Definition set_pointer (a : Attrib) (p : option Pointer) (m : Machine)
  : Machine :=
  match a with
  | a_Position =>
      mkMachine (array_buffer m) (store m) p (uv m)
                (modelMatrix m) (texColorWeight m) (baseColor m)
  | a_UV =>
      mkMachine (array_buffer m) (store m) (position m) p
                (modelMatrix m) (texColorWeight m) (baseColor m)
  end.

(** The effect of one call on the machine, and the draw it issues. *)
Definition step (m : Machine) (c : Call) : Machine * option Draw :=
  match c with
  | bindBuffer b =>
      (mkMachine (Some b) (store m) (position m) (uv m)
                 (modelMatrix m) (texColorWeight m) (baseColor m), None)
  | bufferData d =>
      (match array_buffer m with
       | Some b =>
           mkMachine (array_buffer m) ((b, d) :: store m) (position m) (uv m)
                     (modelMatrix m) (texColorWeight m) (baseColor m)
       | None => m
       end, None)
  | vertexAttribPointer a size _ stride offset =>
      (match array_buffer m with
       | Some b => set_pointer a (Some (mkPointer b size stride offset)) m
       | None => m
       end, None)
  | uniformMatrix4fv u_ModelMatrix _ mat =>
      (mkMachine (array_buffer m) (store m) (position m) (uv m)
                 (Some mat) (texColorWeight m) (baseColor m), None)
  | uniform1f u_texColorWeight v =>
      (mkMachine (array_buffer m) (store m) (position m) (uv m)
                 (modelMatrix m) (Some v) (baseColor m), None)
  | uniform4fv u_baseColor v =>
      (mkMachine (array_buffer m) (store m) (position m) (uv m)
                 (modelMatrix m) (texColorWeight m) (Some v), None)
  | drawArrays mode first count =>
      (m, Some (mkDraw mode
                  (List.map (fetch (store m) (position m)) (seq first count))
                  (List.map (fetch (store m) (uv m)) (seq first count))
                  (modelMatrix m) (texColorWeight m) (baseColor m)))
  | _ => (m, None)
  end.

(** The draws of a log, in order, from a given machine state. *)
Fixpoint replay (m : Machine) (l : list Call) : list Draw :=
  match l with
  | [] => []
  | c :: l' =>
      match step m c with
      | (m', Some d) => d :: replay m' l'
      | (m', None) => replay m' l'
      end
  end.

(** The machine after a log. *)
Definition run (m : Machine) (l : list Call) : Machine :=
  fold_left (fun m c => fst (step m c)) l m.

End GL.

Notation "x <- m ;; k" := (GL.bind m (fun x => k))
(at level 61, m at next level, right associativity).
Notation "m ;; k" := (GL.bind m (fun _ => k))
(at level 61, right associativity).

(* ================================================================= *)
(** ** The [Cube] class *)

Module Cube.

Record t : Type := mk {
  modelMatrix : Matrix4.t;
  texWeight : R;
  baseColor : list R;
  vertices : list R;
  vertexBuffer : GL.Buffer }.

(** The [Float32Array] of the constructor: per vertex a position
    [(x, y, z)] and texture coordinates [(u, v)]. *)
Definition vertex_data : list R :=
  [ -0.5; -0.5; 0.5; 0; 0;
     0.5; -0.5; 0.5; 1; 0;
    -0.5;  0.5; 0.5; 0; 1;
     0.5;  0.5; 0.5; 1; 1 ].

(** [new Cube(gl, program, modelMatrix, texWeight, baseColor)].  The two
    [getAttribLocation] queries change nothing and are not logged. *)
Definition new (modelMatrix : Matrix4.t) (texWeight : R) (baseColor : list R)
  : GL.M t :=
  let vertices := vertex_data in
  vertexBuffer <- GL.newBuffer ;;
  GL.emit (GL.bindBuffer vertexBuffer) ;;
  GL.emit (GL.bufferData vertices) ;;
  let FSIZE := GL.FSIZE in
  GL.emit (GL.vertexAttribPointer GL.a_Position 3 false (FSIZE * 5) 0) ;;
  GL.emit (GL.enableVertexAttribArray GL.a_Position) ;;
  GL.emit (GL.vertexAttribPointer GL.a_UV 2 false (FSIZE * 5) (FSIZE * 3)) ;;
  GL.emit (GL.enableVertexAttribArray GL.a_UV) ;;
  GL.ret (mk modelMatrix texWeight baseColor vertices vertexBuffer).

(** The default arguments [texWeight = 1.0] and [baseColor = [1, 1, 1, 1]]. *)
Definition new_default (modelMatrix : Matrix4.t) : GL.M t :=
  new modelMatrix 1.0 [1; 1; 1; 1].

(** [Cube.draw]. *)
Definition draw (c : t) : GL.M unit :=
  GL.emit (GL.uniformMatrix4fv GL.u_ModelMatrix false (modelMatrix c)) ;;
  GL.emit (GL.uniform1f GL.u_texColorWeight (texWeight c)) ;;
  GL.emit (GL.uniform4fv GL.u_baseColor (baseColor c)) ;;
  GL.emit (GL.drawArrays GL.TRIANGLE_STRIP 0 4).

End Cube.

(* ================================================================= *)
(** ** Scene composition *)

Module Scene.

(** A height grid: rows of cells, each cell a stack height. *)
Definition Grid : Type := list (list nat).

(** The constant [map] of the script. *)
Definition map : Grid :=
  [ [1; 0; 2; 0];
    [3; 0; 0; 1];
    [1; 0; 1; 1];
    [4; 0; 0; 2] ]%nat.

Definition skyMatrix : Matrix4.t :=
  Matrix4.scale (Matrix4.setTranslate 2 2 2) 50 50 50.

Definition groundMatrix : Matrix4.t :=
  Matrix4.scale (Matrix4.setTranslate 2 (-0.1) 2) 8 0.1 8.

(** The body of the innermost loop: one textured unit cube. *)
Definition drawStacked (i h j : nat) : GL.M unit :=
  let modelMatrix := Matrix4.setTranslate (INR i) (INR h) (INR j) in
  cube <- Cube.new_default modelMatrix ;;
  Cube.draw cube.

(** [drawScene], with the grid and the two matrices it reads as
    arguments.  The inner bound is the length of the first row, [map[0]];
    a cell [map[i][j]] beyond the end of row [i] is [undefined], for which
    [h < height] is false at once. *)
Definition drawScene (map : Grid) (viewMatrix projectionMatrix : Matrix4.t)
  : GL.M unit :=
  GL.emit (GL.clearColor 0.5 0.7 1.0 1.0) ;;
  GL.emit (GL.clear [GL.COLOR_BUFFER_BIT; GL.DEPTH_BUFFER_BIT]) ;;
  GL.emit (GL.uniformMatrix4fv GL.u_ViewMatrix false viewMatrix) ;;
  GL.emit (GL.uniformMatrix4fv GL.u_ProjectionMatrix false projectionMatrix) ;;
  sky <- Cube.new skyMatrix 0.0 [0.3; 0.5; 1.0; 1.0] ;;
  Cube.draw sky ;;
  ground <- Cube.new groundMatrix 0.0 [0.3; 0.8; 0.3; 1.0] ;;
  Cube.draw ground ;;
  GL.for_upto (length map) (fun i =>
    GL.for_upto (length (nth 0 map [])) (fun j =>
      match nth_error (nth i map []) j with
      | Some height => GL.for_upto height (fun h => drawStacked i h j)
      | None => GL.ret tt
      end)).

(** The calls one [drawScene] makes, when the next buffer handle is [b]. *)
Definition emitted (map : Grid) (viewMatrix projectionMatrix : Matrix4.t)
  (b : GL.Buffer) : list GL.Call :=
  GL.calls (GL.exec (drawScene map viewMatrix projectionMatrix)
                    (GL.mkContext b [])).

(** *** The scene as the specification describes it *)

(** What the pipeline sees of one cube instance. *)
Definition instance (m : Matrix4.t) (w : R) (c : list R) (quad : list (list R))
  (tex : list (list R)) : GL.Draw :=
  GL.mkDraw GL.TRIANGLE_STRIP quad tex (Some m) (Some w) (Some c).

(** The single face every cube instance is drawn from: the four corners
    of the [z = +0.5] face of the unit cube, and their texture
    coordinates. *)
Definition front_face : list (list R) :=
  [ [-0.5; -0.5; 0.5]; [0.5; -0.5; 0.5]; [-0.5; 0.5; 0.5]; [0.5; 0.5; 0.5] ].

Definition front_uv : list (list R) :=
  [ [0; 0]; [1; 0]; [0; 1]; [1; 1] ].

Definition sky_draw : GL.Draw :=
  instance skyMatrix 0.0 [0.3; 0.5; 1.0; 1.0] front_face front_uv.

Definition ground_draw : GL.Draw :=
  instance groundMatrix 0.0 [0.3; 0.8; 0.3; 1.0] front_face front_uv.

Definition stacked_draw (c : nat * nat * nat) : GL.Draw :=
  let '(i, j, h) := c in
  instance (Matrix4.setTranslate (INR i) (INR h) (INR j)) 1.0 [1; 1; 1; 1]
           front_face front_uv.

(** The cubes of a grid as (row, column, level), in row-major order of the
    grid and bottom-to-top within a cell. *)
Fixpoint cells_of_row (i j : nat) (row : list nat) : list (nat * nat * nat) :=
  match row with
  | [] => []
  | height :: row' =>
      List.map (fun h => (i, j, h)) (seq 0 height) ++ cells_of_row i (S j) row'
  end.

Fixpoint cells_from (i : nat) (g : Grid) : list (nat * nat * nat) :=
  match g with
  | [] => []
  | row :: g' => cells_of_row i 0 row ++ cells_from (S i) g'
  end.

Definition cells (g : Grid) : list (nat * nat * nat) := cells_from 0 g.

(** The sum of all cell heights. *)
Definition total_height (g : Grid) : nat :=
  list_sum (List.map (fun row => list_sum row) g).

(** A grid proper: every row as long as the first. *)
Definition rectangular (g : Grid) : Prop :=
  Forall (fun row => length row = length (nth 0 g [])) g.

(** Lexicographic order on (row, column, level). *)
Definition cell_lt (a b : nat * nat * nat) : Prop :=
  let '(i, j, h) := a in
  let '(i', j', h') := b in
  (i < i' \/ (i = i' /\ (j < j' \/ (j = j' /\ h < h'))))%nat.

End Scene.

(* ================================================================= *)
(** ** The script: camera variables and event handlers *)

Module Main.

(** The global variables of the script that the handlers read and write.
    [at_] is the variable [at]. *)
Record t : Type := mk {
  eye : Vector3.t;
  forward : Vector3.t;
  up : Vector3.t;
  at_ : Vector3.t;
  viewMatrix : Matrix4.t;
  projectionMatrix : Matrix4.t;
  gl : GL.Context }.

Definition set_eye (v : Vector3.t) (w : t) : t :=
  mk v (forward w) (up w) (at_ w) (viewMatrix w) (projectionMatrix w) (gl w).

Definition set_forward (v : Vector3.t) (w : t) : t :=
  mk (eye w) v (up w) (at_ w) (viewMatrix w) (projectionMatrix w) (gl w).

Definition set_at (v : Vector3.t) (w : t) : t :=
  mk (eye w) (forward w) (up w) v (viewMatrix w) (projectionMatrix w) (gl w).

Definition set_viewMatrix (m : Matrix4.t) (w : t) : t :=
  mk (eye w) (forward w) (up w) (at_ w) m (projectionMatrix w) (gl w).

Definition set_projectionMatrix (m : Matrix4.t) (w : t) : t :=
  mk (eye w) (forward w) (up w) (at_ w) (viewMatrix w) m (gl w).

Definition set_gl (g : GL.Context) (w : t) : t :=
  mk (eye w) (forward w) (up w) (at_ w) (viewMatrix w) (projectionMatrix w) g.

(** [updateViewMatrix]. *)
Definition updateViewMatrix (w : t) : t :=
  set_viewMatrix (Matrix4.setLookAt (eye w) (at_ w) (up w)) w.

(** [updateProjectionMatrix]; [aspect] is [canvas.width / canvas.height]. *)
Definition updateProjectionMatrix (aspect : R) (w : t) : t :=
  set_projectionMatrix (Matrix4.setPerspective 60 aspect 0.1 100) w.

(** [drawScene], on the global [map] and the two global matrices. *)
Definition drawScene (w : t) : t :=
  set_gl (GL.exec (Scene.drawScene Scene.map (viewMatrix w) (projectionMatrix w))
                  (gl w)) w.

(** [move(dirVec)]. *)
Definition move (dirVec : Vector3.t) (w : t) : t :=
  let moveVec := Vector3.mul (Vector3.normalize dirVec) 0.3 in
  let w := set_eye (Vector3.add (eye w) moveVec) w in
  let w := set_at (Vector3.add (at_ w) moveVec) w in
  drawScene (updateViewMatrix w).

(** The block-local [right] that the [KeyA] and the [KeyD] case compute,
    by the same three statements, before they call [move]. *)
Definition strafe_right (w : t) : Vector3.t :=
  let viewDir := Vector3.normalize (Vector3.sub (at_ w) (eye w)) in
  let right := Vector3.cross viewDir (up w) in
  Vector3.normalize right.

(** The [switch] of the [keydown] handler.  Every [new Vector3(v.elements)]
    is a fresh copy of [v]; [new Vector3(eye)] of the two yaw cases is
    taken to be a copy of [eye] as well. *)
Definition key_case (code : string) (w : t) : t :=
  if (code =? "KeyW")%string then move (forward w) w
  else if (code =? "KeyS")%string then move (Vector3.mul (forward w) (-2)) w
  else if (code =? "KeyA")%string then
    let right := strafe_right w in
    move (Vector3.mul right (-1)) w
  else if (code =? "KeyD")%string then
    let right := strafe_right w in
    move right w
  else if (code =? "KeyQ")%string then
    let rot := Matrix4.setRotate (-5) (Vector3.x (up w)) (Vector3.y (up w))
                                 (Vector3.z (up w)) in
    let w := set_forward
               (Vector3.normalize (Matrix4.multiplyVector3 rot (forward w))) w in
    set_at (Vector3.add (eye w) (forward w)) w
  else if (code =? "KeyE")%string then
    let rot := Matrix4.setRotate 5 (Vector3.x (up w)) (Vector3.y (up w))
                                 (Vector3.z (up w)) in
    let w := set_forward
               (Vector3.normalize (Matrix4.multiplyVector3 rot (forward w))) w in
    set_at (Vector3.add (eye w) (forward w)) w
  else if (code =? "Space")%string then move (up w) w
  else if (code =? "ShiftLeft")%string then move (Vector3.mul (up w) (-1)) w
  else w.

(** The [keydown] handler; [code] is [e.code]. *)
Definition keydown (code : string) (w : t) : t :=
  drawScene (updateViewMatrix (key_case code w)).

(** The [mousemove] handler; [pointerLocked] is the outcome of the test
    [document.pointerLockElement === canvas], [movementX] is
    [e.movementX]. *)
Definition mousemove (pointerLocked : bool) (movementX : R) (w : t) : t :=
  if pointerLocked then
    let sensitivity := 0.002 in
    let yaw := - movementX * sensitivity in
    let rot := Matrix4.setRotate (yaw * 180 / PI) (Vector3.x (up w))
                                 (Vector3.y (up w)) (Vector3.z (up w)) in
    let w := set_forward
               (Vector3.normalize (Matrix4.multiplyVector3 rot (forward w))) w in
    drawScene (updateViewMatrix w)
  else w.

(** The top level of the script from "Camera setup" on: the initial
    camera, then [updateViewMatrix(); updateProjectionMatrix();
    drawScene()].  [g] is the context as shader and texture setup left it;
    [aspect] is [canvas.width / canvas.height]. *)
Definition startup (aspect : R) (g : GL.Context) : t :=
  let eye := Vector3.mk 0 2 (-5) in
  let forward := Vector3.normalize (Vector3.mk 0 0 1) in
  let up := Vector3.mk 0 1 0 in
  let at_ := Vector3.mk 0 2 0 in
  let w := mk eye forward up at_ Matrix4.identity Matrix4.identity g in
  drawScene (updateProjectionMatrix aspect (updateViewMatrix w)).

(** The events that reach a handler writing a camera variable.  (The
    [click] handlers and the image [onload] callback write none.) *)
Inductive Event : Type :=
| KeyDown (code : string)
| MouseMove (pointerLocked : bool) (movementX : R).

Definition handle (e : Event) (w : t) : t :=
  match e with
  | KeyDown code => keydown code w
  | MouseMove pointerLocked movementX => mousemove pointerLocked movementX w
  end.

(** The states the script can be in. *)
Inductive reachable : t -> Prop :=
| reach_startup (aspect : R) (g : GL.Context) : reachable (startup aspect g)
| reach_handle (e : Event) (w : t) : reachable w -> reachable (handle e w).

(** The states reached without any [mousemove] under pointer lock. *)
Inductive key_reachable : t -> Prop :=
| key_startup (aspect : R) (g : GL.Context) : key_reachable (startup aspect g)
| key_handle (code : string) (w : t) :
    key_reachable w -> key_reachable (keydown code w).

(** The key codes the [switch] has a case for. *)
Definition movement_codes : list string :=
  ["KeyW"; "KeyS"; "KeyA"; "KeyD"; "Space"; "ShiftLeft"]%string.

Definition yaw_codes : list string := ["KeyQ"; "KeyE"]%string.

Definition handled_codes : list string :=
  ["KeyW"; "KeyS"; "KeyA"; "KeyD"; "KeyQ"; "KeyE"; "Space"; "ShiftLeft"]%string.

(** The world-up axis. *)
Definition world_up : Vector3.t := Vector3.mk 0 1 0.

(** A vector turned by [theta] radians about the world-up axis [+Y],
    counter-clockwise seen from above. *)
Definition yaw_by (theta : R) (v : Vector3.t) : Vector3.t :=
  Vector3.mk (Vector3.x v * cos theta + Vector3.z v * sin theta)
             (Vector3.y v)
             (Vector3.z v * cos theta - Vector3.x v * sin theta).


(** Distance between two points. *)
Definition dist (a b : Vector3.t) : R := Vector3.magnitude (Vector3.sub a b).

End Main.

(* ================================================================= *)
(** ** The camera handlers in any arithmetic

    [Main] computes in the real numbers, where sums and products are
    exact.  The script computes in floating point, where every operation
    rounds.  So that what the handlers do can be told apart from what
    exact arithmetic adds to it, the camera part of the script is given
    here a second time, over an arithmetic that is a parameter: the real
    numbers are one instance, IEEE binary64 (the numbers of the script)
    another. *)

Module Num.

(** An arithmetic: the numbers, how a decimal literal of the script is
    read, the operations the vector library needs, and [Math.PI]. *)
Record t : Type := mk {
  num : Type;
  of_Q : Q -> num;
  add : num -> num -> num;
  sub : num -> num -> num;
  mul : num -> num -> num;
  div : num -> num -> num;
  opp : num -> num;
  sqrt : num -> num;
  pi : num }.

End Num.

(** Exact arithmetic: the real numbers of [Vector3] and [Main]. *)
Definition real_numbers : Num.t :=
  Num.mk R Q2R Rplus Rminus Rmult Rdiv Ropp sqrt PI.

(** An integer as a binary64 number (exact below [2^53]). *)
Definition float_of_Z (n : Z) : PrimFloat.float :=
  match n with
  | Z0 => PrimFloat.of_uint63 (Uint63.of_Z 0)
  | Zpos _ => PrimFloat.of_uint63 (Uint63.of_Z n)
  | Zneg p => PrimFloat.opp (PrimFloat.of_uint63 (Uint63.of_Z (Zpos p)))
  end.

(** A decimal literal as the script reads it: the binary64 number nearest
    to it, which the correctly rounded quotient of numerator and
    denominator is. *)
Definition float_of_Q (a : Q) : PrimFloat.float :=
  PrimFloat.div (float_of_Z (Qnum a)) (float_of_Z (Zpos (Qden a))).

(** IEEE binary64, the arithmetic of the script's numbers.  [Math.PI] is
    [0x1.921fb54442d18p+1], that is [7074237752028440 / 2^51]. *)
Definition binary64 : Num.t :=
  Num.mk PrimFloat.float float_of_Q PrimFloat.add PrimFloat.sub PrimFloat.mul
         PrimFloat.div PrimFloat.opp PrimFloat.sqrt
         (float_of_Q (7074237752028440 # 2251799813685248)).


Module Vec.

Section Over.

Variable A : Num.t.

(** Modelled from the spec: [Vector3] of the transform library, as in
    module [Vector3], with the components in the arithmetic [A]. *)
Record t : Type := mk { x : Num.num A; y : Num.num A; z : Num.num A }.

(** Modelled from the spec: [Vector3.add], component by component. *)
Definition add (a b : t) : t :=
  mk (Num.add A (x a) (x b)) (Num.add A (y a) (y b)) (Num.add A (z a) (z b)).

(** Modelled from the spec: [Vector3.sub]. *)
Definition sub (a b : t) : t :=
  mk (Num.sub A (x a) (x b)) (Num.sub A (y a) (y b)) (Num.sub A (z a) (z b)).

(** Modelled from the spec: [Vector3.mul], by a scalar. *)
Definition mul (a : t) (k : Num.num A) : t :=
  mk (Num.mul A (x a) k) (Num.mul A (y a) k) (Num.mul A (z a) k).

(** Modelled from the spec: the inner product. *)
Definition dot (a b : t) : Num.num A :=
  Num.add A (Num.add A (Num.mul A (x a) (x b)) (Num.mul A (y a) (y b)))
            (Num.mul A (z a) (z b)).

(** Modelled from the spec: [Vector3.cross], returning the product. *)
Definition cross (a b : t) : t :=
  mk (Num.sub A (Num.mul A (y a) (z b)) (Num.mul A (z a) (y b)))
     (Num.sub A (Num.mul A (z a) (x b)) (Num.mul A (x a) (z b)))
     (Num.sub A (Num.mul A (x a) (y b)) (Num.mul A (y a) (x b))).

(** Modelled from the spec: the norm. *)
Definition magnitude (a : t) : Num.num A := Num.sqrt A (dot a a).

(** Modelled from the spec: [Vector3.normalize], the vector times the
    inverse of its norm. *)
Definition normalize (a : t) : t :=
  mul a (Num.div A (Num.of_Q A 1) (magnitude a)).

End Over.

Arguments x {A} _.
Arguments y {A} _.
Arguments z {A} _.

End Vec.

Module Cam.

Section Over.

Variable A : Num.t.

(** [rotate angle axis v] stands for
    [new Matrix4().setRotate(angle, ...axis.elements).multiplyVector3(v)]
    of the transform library, [angle] in degrees. *)
Variable rotate : Num.num A -> Vec.t A -> Vec.t A -> Vec.t A.

(** The camera variables, the arguments [viewMatrix] was last built from
    by [setLookAt] ([None] for the matrix [new Matrix4()] it starts as),
    and the number of [drawScene] calls so far. *)
Record t : Type := mk {
  eye : Vec.t A;
  forward : Vec.t A;
  up : Vec.t A;
  at_ : Vec.t A;
  view : option (Vec.t A * Vec.t A * Vec.t A);
  redraws : nat }.

(** [updateViewMatrix]: [setLookAt] on [eye], [at], [up]. *)
Definition updateViewMatrix (w : t) : t :=
  mk (eye w) (forward w) (up w) (at_ w) (Some (eye w, at_ w, up w))
     (redraws w).

(** [drawScene], counted. *)
Definition drawScene (w : t) : t :=
  mk (eye w) (forward w) (up w) (at_ w) (view w) (S (redraws w)).

(** The vector [move] adds to [eye] and to [at]. *)
Definition moveVec (dirVec : Vec.t A) : Vec.t A :=
  Vec.mul A (Vec.normalize A dirVec) (Num.of_Q A 0.3).

(** [move(dirVec)]. *)
Definition move (dirVec : Vec.t A) (w : t) : t :=
  let moveVec := moveVec dirVec in
  let w := mk (Vec.add A (eye w) moveVec) (forward w) (up w) (at_ w)
              (view w) (redraws w) in
  let w := mk (eye w) (forward w) (up w) (Vec.add A (at_ w) moveVec)
              (view w) (redraws w) in
  drawScene (updateViewMatrix w).

(** The block-local [right] of the [KeyA] and [KeyD] cases. *)
Definition strafe_right (w : t) : Vec.t A :=
  let viewDir := Vec.normalize A (Vec.sub A (at_ w) (eye w)) in
  let right := Vec.cross A viewDir (up w) in
  Vec.normalize A right.

(** The two yaw cases, [angle] being [-5] or [5]. *)
Definition yaw_case (angle : Num.num A) (w : t) : t :=
  let forward' := Vec.normalize A (rotate angle (up w) (forward w)) in
  mk (eye w) forward' (up w) (Vec.add A (eye w) forward') (view w) (redraws w).

(** The [switch] of the [keydown] handler. *)
Definition key_case (code : string) (w : t) : t :=
  if (code =? "KeyW")%string then move (forward w) w
  else if (code =? "KeyS")%string then
    move (Vec.mul A (forward w) (Num.of_Q A (-2))) w
  else if (code =? "KeyA")%string then
    let right := strafe_right w in
    move (Vec.mul A right (Num.of_Q A (-1))) w
  else if (code =? "KeyD")%string then
    let right := strafe_right w in
    move right w
  else if (code =? "KeyQ")%string then yaw_case (Num.of_Q A (-5)) w
  else if (code =? "KeyE")%string then yaw_case (Num.of_Q A 5) w
  else if (code =? "Space")%string then move (up w) w
  else if (code =? "ShiftLeft")%string then
    move (Vec.mul A (up w) (Num.of_Q A (-1))) w
  else w.

(** The [keydown] handler. *)
Definition keydown (code : string) (w : t) : t :=
  drawScene (updateViewMatrix (key_case code w)).

(** The [mousemove] handler. *)
Definition mousemove (pointerLocked : bool) (movementX : Num.num A) (w : t)
  : t :=
  if pointerLocked then
    let sensitivity := Num.of_Q A 0.002 in
    let yaw := Num.mul A (Num.opp A movementX) sensitivity in
    let angle := Num.div A (Num.mul A yaw (Num.of_Q A 180)) (Num.pi A) in
    let forward' := Vec.normalize A (rotate angle (up w) (forward w)) in
    let w := mk (eye w) forward' (up w) (at_ w) (view w) (redraws w) in
    drawScene (updateViewMatrix w)
  else w.

(** The top level of the script from "Camera setup" on ([updateProjectionMatrix]
    touches none of these variables). *)
Definition startup : t :=
  let eye := Vec.mk A (Num.of_Q A 0) (Num.of_Q A 2) (Num.of_Q A (-5)) in
  let forward :=
    Vec.normalize A (Vec.mk A (Num.of_Q A 0) (Num.of_Q A 0) (Num.of_Q A 1)) in
  let up := Vec.mk A (Num.of_Q A 0) (Num.of_Q A 1) (Num.of_Q A 0) in
  let at_ := Vec.mk A (Num.of_Q A 0) (Num.of_Q A 2) (Num.of_Q A 0) in
  drawScene (updateViewMatrix (mk eye forward up at_ None 0%nat)).

(** The camera states the script can be in. *)
Inductive reachable : t -> Prop :=
| reach_startup : reachable startup
| reach_keydown (code : string) (w : t) :
    reachable w -> reachable (keydown code w)
| reach_mousemove (pointerLocked : bool) (movementX : Num.num A) (w : t) :
    reachable w -> reachable (mousemove pointerLocked movementX w).

End Over.

Arguments eye {A} _.
Arguments forward {A} _.
Arguments up {A} _.
Arguments at_ {A} _.
Arguments view {A} _.
Arguments redraws {A} _.

End Cam.


(** A real vector as a vector of the generic library. *)
Definition vec_of (v : Vector3.t) : Vec.t real_numbers :=
  Vec.mk real_numbers (Vector3.x v) (Vector3.y v) (Vector3.z v).

(** The rotation of [Matrix4], as the [rotate] of the generic handlers. *)
Definition real_rotate (angle : R) (axis v : Vec.t real_numbers)
  : Vec.t real_numbers :=
  vec_of (Matrix4.multiplyVector3
            (Matrix4.setRotate angle (Vec.x axis) (Vec.y axis) (Vec.z axis))
            (Vector3.mk (Vec.x v) (Vec.y v) (Vec.z v))).

(** A state of [Main] and a state of the generic handlers with the same
    camera. *)
Definition same_camera (w : Main.t) (c : Cam.t real_numbers) : Prop :=
  Cam.eye c = vec_of (Main.eye w) /\
  Cam.forward c = vec_of (Main.forward w) /\
  Cam.up c = vec_of (Main.up w) /\
  Cam.at_ c = vec_of (Main.at_ w).

(* ================================================================= *)
(** ** Auxiliary definitions for the proofs *)

(** The arguments of one [new Cube(...)]. *)
Definition CubeArgs : Type := (Matrix4.t * R * list R)%type.

(** The calls of [new Cube(...)] followed by [draw], on buffer [b]. *)
Definition cube_block (b : GL.Buffer) (a : CubeArgs) : list GL.Call :=
  let '(m, w, c) := a in
  [ GL.createBuffer b;
    GL.bindBuffer b;
    GL.bufferData Cube.vertex_data;
    GL.vertexAttribPointer GL.a_Position 3 false 20 0;
    GL.enableVertexAttribArray GL.a_Position;
    GL.vertexAttribPointer GL.a_UV 2 false 20 12;
    GL.enableVertexAttribArray GL.a_UV;
    GL.uniformMatrix4fv GL.u_ModelMatrix false m;
    GL.uniform1f GL.u_texColorWeight w;
    GL.uniform4fv GL.u_baseColor c;
    GL.drawArrays GL.TRIANGLE_STRIP 0 4 ].

(** The calls of a run of cubes, on buffers [b], [b + 1], ... *)
Fixpoint cube_blocks (b : GL.Buffer) (l : list CubeArgs) : list GL.Call :=
  match l with
  | [] => []
  | a :: l' => cube_block b a ++ cube_blocks (S b) l'
  end.

(** A program that only constructs and draws the cubes [l], in order. *)
Definition draws_cubes (p : GL.M unit) (l : list CubeArgs) : Prop :=
  forall g,
    p g = (tt, GL.mkContext (GL.next_buffer g + length l)%nat
                            (GL.calls g ++ cube_blocks (GL.next_buffer g) l)).

Definition stacked_args (c : nat * nat * nat) : CubeArgs :=
  let '(i, j, h) := c in
  (Matrix4.setTranslate (INR i) (INR h) (INR j), 1.0, [1; 1; 1; 1]).

Definition sky_args : CubeArgs := (Scene.skyMatrix, 0.0, [0.3; 0.5; 1.0; 1.0]).

Definition ground_args : CubeArgs :=
  (Scene.groundMatrix, 0.0, [0.3; 0.8; 0.3; 1.0]).

Definition draw_of (a : CubeArgs) : GL.Draw :=
  let '(m, w, c) := a in Scene.instance m w c Scene.front_face Scene.front_uv.

(** The cells the three nested loops of [drawScene] visit, as the loops
    index them. *)
Definition loop_cells (g : Scene.Grid) : list (nat * nat * nat) :=
  flat_map (fun i =>
    flat_map (fun j =>
      match nth_error (nth i g []) j with
      | Some height => List.map (fun h => (i, j, h)) (seq 0 height)
      | None => []
      end) (seq 0 (length (nth 0 g [])))) (seq 0 (length g)).

(** The four calls [drawScene] starts with. *)
Definition scene_header (v p : Matrix4.t) : list GL.Call :=
  [ GL.clearColor 0.5 0.7 1.0 1.0;
    GL.clear [GL.COLOR_BUFFER_BIT; GL.DEPTH_BUFFER_BIT];
    GL.uniformMatrix4fv GL.u_ViewMatrix false v;
    GL.uniformMatrix4fv GL.u_ProjectionMatrix false p ].

(** What the handlers keep true of the camera: [up] is the world-up
    axis, [forward] is a horizontal unit vector. *)
Definition camera_ok (w : Main.t) : Prop :=
  Main.up w = Main.world_up /\
  Vector3.magnitude (Main.forward w) = 1 /\
  Vector3.y (Main.forward w) = 0.

(** The invariant as the data model states it. *)
Definition look_invariant (w : Main.t) : Prop :=
  Main.at_ w = Vector3.add (Main.eye w) (Main.forward w) /\
  Vector3.magnitude (Main.forward w) = 1.

(** A context on which nothing has been called yet. *)
Definition fresh_context : GL.Context := GL.mkContext 0%nat [].

(** The script started on a square canvas. *)
Definition started : Main.t := Main.startup 1 fresh_context.

(** A sequence of events handled one after the other, oldest first. *)
Definition run_events (es : list Main.Event) (w : Main.t) : Main.t :=
  fold_left (fun w e => Main.handle e w) es w.

(** The same key pressed [n] times. *)
Definition presses (n : nat) (code : string) (w : Main.t) : Main.t :=
  Nat.iter n (Main.keydown code) w.

(** The buffer handles a log creates, in order. *)
Definition created (l : list GL.Call) : list GL.Buffer :=
  flat_map (fun c => match c with GL.createBuffer b => [b] | _ => [] end) l.

(** The keys that walk, and the keys that fly up and down. *)
Definition walk_codes : list string := ["KeyW"; "KeyS"; "KeyA"; "KeyD"]%string.

(** What the handlers keep true of the look vector [at - eye]: it is
    horizontal and not zero. *)
Definition look_ok (w : Main.t) : Prop :=
  Vector3.y (Vector3.sub (Main.at_ w) (Main.eye w)) = 0 /\
  Vector3.sub (Main.at_ w) (Main.eye w) <> Vector3.zero.

(** The buffers one keydown creates. *)
Definition buffers_per_key (code : string) : nat :=
  if in_dec string_dec code Main.movement_codes then 36%nat else 18%nat.

(** A client of [Cube] that constructs two cubes and only then draws the
    first. *)
Definition draw_first_of_two (a1 a2 : CubeArgs) : GL.M (Cube.t * Cube.t) :=
  let '(m1, w1, c1) := a1 in
  let '(m2, w2, c2) := a2 in
  cube1 <- Cube.new m1 w1 c1 ;;
  cube2 <- Cube.new m2 w2 c2 ;;
  Cube.draw cube1 ;;
  GL.ret (cube1, cube2).

(* ================================================================= *)
(** ** Facts about the context monad and the replay machine *)

Lemma cube_blocks_app (l1 l2 : list CubeArgs) (b : GL.Buffer) :
  cube_blocks b (l1 ++ l2)
  = cube_blocks b l1 ++ cube_blocks (b + length l1)%nat l2.
Proof.
  revert b; induction l1 as [|a l1 IH]; intros b; simpl.
  - now rewrite Nat.add_0_r.
  - rewrite IH, <- app_assoc. do 3 f_equal. lia.
Qed.

Lemma draws_cubes_ret : draws_cubes (GL.ret tt) [].
Proof.
  intros [b l]; unfold GL.ret; simpl.
  now rewrite Nat.add_0_r, app_nil_r.
Qed.

Lemma draws_cubes_seq (p1 p2 : GL.M unit) (l1 l2 : list CubeArgs) :
  draws_cubes p1 l1 -> draws_cubes p2 l2 ->
  draws_cubes (p1 ;; p2) (l1 ++ l2).
Proof.
  intros H1 H2 g. unfold GL.bind. rewrite H1, H2. simpl.
  rewrite cube_blocks_app, length_app, <- app_assoc.
  do 2 f_equal. lia.
Qed.

Lemma draws_cubes_new_draw (m : Matrix4.t) (w : R) (c : list R) :
  draws_cubes (cube <- Cube.new m w c ;; Cube.draw cube) [(m, w, c)].
Proof.
  intros [b l].
  unfold Cube.new, Cube.draw, GL.bind, GL.newBuffer, GL.emit, GL.ret; simpl.
  repeat rewrite <- app_assoc. simpl.
  do 2 f_equal. lia.
Qed.

Lemma draws_cubes_for_from (body : nat -> GL.M unit) (f : nat -> list CubeArgs)
  (n from : nat) :
  (forall i, draws_cubes (body i) (f i)) ->
  draws_cubes (GL.for_from from n body) (flat_map f (seq from n)).
Proof.
  intros Hbody. revert from.
  induction n as [|n IH]; intros from; simpl.
  - apply draws_cubes_ret.
  - apply draws_cubes_seq; [apply Hbody | apply IH].
Qed.

Lemma draws_cubes_for_upto (body : nat -> GL.M unit) (f : nat -> list CubeArgs)
  (n : nat) :
  (forall i, draws_cubes (body i) (f i)) ->
  draws_cubes (GL.for_upto n body) (flat_map f (seq 0 n)).
Proof. apply draws_cubes_for_from. Qed.

Lemma map_as_flat_map {A B : Type} (f : A -> B) (l : list A) :
  List.map f l = flat_map (fun a => [f a]) l.
Proof. induction l as [|a l IH]; simpl; [reflexivity | now rewrite IH]. Qed.

Lemma map_flat_map {A B C : Type} (g : B -> C) (f : A -> list B) (l : list A) :
  List.map g (flat_map f l) = flat_map (fun a => List.map g (f a)) l.
Proof.
  induction l as [|a l IH]; simpl; [reflexivity|].
  now rewrite map_app, IH.
Qed.

Lemma draws_cubes_stack (i j height : nat) :
  draws_cubes (GL.for_upto height (fun h => Scene.drawStacked i h j))
              (List.map stacked_args (List.map (fun h => (i, j, h)) (seq 0 height))).
Proof.
  rewrite map_map, map_as_flat_map.
  apply draws_cubes_for_upto. intros h.
  exact (draws_cubes_new_draw
           (Matrix4.setTranslate (INR i) (INR h) (INR j)) 1.0 [1; 1; 1; 1]).
Qed.

Lemma draws_cubes_loops (g : Scene.Grid) :
  draws_cubes
    (GL.for_upto (length g) (fun i =>
       GL.for_upto (length (nth 0 g [])) (fun j =>
         match nth_error (nth i g []) j with
         | Some height => GL.for_upto height (fun h => Scene.drawStacked i h j)
         | None => GL.ret tt
         end)))
    (List.map stacked_args (loop_cells g)).
Proof.
  unfold loop_cells. rewrite map_flat_map.
  apply draws_cubes_for_upto. intros i.
  rewrite map_flat_map.
  apply draws_cubes_for_upto. intros j.
  destruct (nth_error (nth i g []) j) as [height|].
  - apply draws_cubes_stack.
  - apply draws_cubes_ret.
Qed.

Lemma bind_emit (c : GL.Call) (k : GL.M unit) (g : GL.Context) :
  (GL.emit c ;; k) g
  = k (GL.mkContext (GL.next_buffer g) (GL.calls g ++ [c])).
Proof. reflexivity. Qed.

(** A cube constructed and drawn, then the rest of the program. *)
Lemma draws_cubes_new_then (m : Matrix4.t) (w : R) (c : list R)
  (k : GL.M unit) (l : list CubeArgs) :
  draws_cubes k l ->
  draws_cubes (cube <- Cube.new m w c ;; Cube.draw cube ;; k) ((m, w, c) :: l).
Proof.
  intros Hk g.
  pose proof (draws_cubes_seq _ _ _ _ (draws_cubes_new_draw m w c) Hk g) as H.
  exact H.
Qed.

(** The whole log of one [drawScene]. *)
Lemma drawScene_log (g : Scene.Grid) (v p : Matrix4.t) (ctx : GL.Context) :
  Scene.drawScene g v p ctx
  = (tt, GL.mkContext
           (GL.next_buffer ctx + (2 + length (loop_cells g)))%nat
           (GL.calls ctx ++ scene_header v p
              ++ cube_blocks (GL.next_buffer ctx)
                   (sky_args :: ground_args
                      :: List.map stacked_args (loop_cells g)))).
Proof.
  unfold Scene.drawScene. do 4 rewrite bind_emit.
  rewrite (draws_cubes_new_then _ _ _ _ _
             (draws_cubes_new_then _ _ _ _ _ (draws_cubes_loops g))).
  cbn [GL.next_buffer GL.calls length]. rewrite length_map.
  unfold scene_header, sky_args, ground_args.
  repeat rewrite <- app_assoc. reflexivity.
Qed.

Lemma replay_cube_block (m : GL.Machine) (b : GL.Buffer) (a : CubeArgs)
  (rest : list GL.Call) :
  GL.replay m (cube_block b a ++ rest)
  = draw_of a :: GL.replay (GL.run m (cube_block b a)) rest.
Proof.
  destruct a as [[mat w] c]. destruct m as [ab st pos uvp mm tw bc].
  unfold cube_block, draw_of, Scene.instance, Scene.front_face, Scene.front_uv,
    Cube.vertex_data.
  cbn -[Q2R Nat.div]. rewrite Nat.eqb_refl.
  reflexivity.
Qed.

Lemma replay_cube_blocks (l : list CubeArgs) (m : GL.Machine) (b : GL.Buffer) :
  GL.replay m (cube_blocks b l) = List.map draw_of l.
Proof.
  revert m b; induction l as [|a l IH]; intros m b; simpl; [reflexivity|].
  now rewrite replay_cube_block, IH.
Qed.

(** The header of [drawScene] issues no draw. *)
Lemma replay_scene_header (m : GL.Machine) (v p : Matrix4.t)
  (rest : list GL.Call) :
  GL.replay m (scene_header v p ++ rest) = GL.replay m rest.
Proof. destruct m; reflexivity. Qed.

(** What one [drawScene] draws, whatever the state of the pipeline before. *)
Lemma replay_emitted (g : Scene.Grid) (v p : Matrix4.t) (b : GL.Buffer)
  (m : GL.Machine) :
  GL.replay m (Scene.emitted g v p b)
  = List.map draw_of
      (sky_args :: ground_args :: List.map stacked_args (loop_cells g)).
Proof.
  unfold Scene.emitted, GL.exec. rewrite drawScene_log.
  cbn [snd GL.calls GL.next_buffer app].
  now rewrite replay_scene_header, replay_cube_blocks.
Qed.

(* ================================================================= *)
(** ** The loops of [drawScene] against the row-major enumeration *)

Lemma loop_row (i : nat) (suf pre : list nat) :
  flat_map (fun j =>
      match nth_error (pre ++ suf) j with
      | Some height => List.map (fun h => (i, j, h)) (seq 0 height)
      | None => []
      end) (seq (length pre) (length suf))
  = Scene.cells_of_row i (length pre) suf.
Proof.
  revert pre; induction suf as [|height suf IH]; intros pre; [reflexivity|].
  cbn [length seq flat_map Scene.cells_of_row].
  rewrite nth_error_app2, Nat.sub_diag by lia. cbn [nth_error].
  f_equal.
  specialize (IH (pre ++ [height])).
  rewrite <- app_assoc, length_app, Nat.add_1_r in IH. exact IH.
Qed.

Lemma loop_rows (n : nat) (suf pre : Scene.Grid) :
  Forall (fun row => length row = n) suf ->
  flat_map (fun i =>
      flat_map (fun j =>
          match nth_error (nth i (pre ++ suf) []) j with
          | Some height => List.map (fun h => (i, j, h)) (seq 0 height)
          | None => []
          end) (seq 0 n)) (seq (length pre) (length suf))
  = Scene.cells_from (length pre) suf.
Proof.
  revert pre; induction suf as [|row suf IH]; intros pre Hn; [reflexivity|].
  inversion Hn as [|? ? Hrow Hsuf]; subst.
  cbn [length seq flat_map Scene.cells_from].
  rewrite app_nth2, Nat.sub_diag by lia. cbn [nth].
  f_equal.
  - exact (loop_row (length pre) row []).
  - specialize (IH (pre ++ [row]) Hsuf).
    rewrite <- app_assoc, length_app, Nat.add_1_r in IH. exact IH.
Qed.

Lemma loop_cells_rectangular (g : Scene.Grid) :
  Scene.rectangular g -> loop_cells g = Scene.cells g.
Proof.
  intros H. exact (loop_rows (length (nth 0 g [])) g [] H).
Qed.

Lemma length_cells_of_row (i j : nat) (row : list nat) :
  length (Scene.cells_of_row i j row) = list_sum row.
Proof.
  revert j; induction row as [|height row IH]; intros j; simpl; [reflexivity|].
  now rewrite length_app, length_map, length_seq, IH.
Qed.

Lemma length_cells_from (i : nat) (g : Scene.Grid) :
  length (Scene.cells_from i g) = Scene.total_height g.
Proof.
  revert i; induction g as [|row g IH]; intros i; [reflexivity|].
  unfold Scene.total_height in *. simpl.
  now rewrite length_app, length_cells_of_row, IH.
Qed.

Lemma StronglySorted_app {A : Type} (lt : A -> A -> Prop) (l1 l2 : list A) :
  StronglySorted lt l1 -> StronglySorted lt l2 ->
  (forall a b, In a l1 -> In b l2 -> lt a b) ->
  StronglySorted lt (l1 ++ l2).
Proof.
  intros H1 H2 H12. induction H1 as [|a l1 Hs IH Ha]; simpl; [assumption|].
  constructor.
  - apply IH. intros; apply H12; simpl; auto.
  - apply Forall_app; split; [assumption|].
    apply Forall_forall; intros b Hb. apply H12; simpl; auto.
Qed.

Lemma In_stack (i j height : nat) (c : nat * nat * nat) :
  In c (List.map (fun h => (i, j, h)) (seq 0 height)) <->
  exists h, c = (i, j, h) /\ (h < height)%nat.
Proof.
  rewrite in_map_iff. split.
  - intros [h [<- Hh]]. apply in_seq in Hh. exists h; split; [reflexivity | lia].
  - intros [h [-> Hh]]. exists h; split; [reflexivity | apply in_seq; lia].
Qed.

Lemma sorted_stack (i j from height : nat) :
  StronglySorted Scene.cell_lt (List.map (fun h => (i, j, h)) (seq from height)).
Proof.
  revert from; induction height as [|height IH]; intros from; simpl.
  - constructor.
  - constructor; [apply IH|].
    apply Forall_forall. intros c Hc.
    apply in_map_iff in Hc. destruct Hc as [h [<- Hh]]. apply in_seq in Hh.
    simpl. right; split; [reflexivity|]. right; split; [reflexivity | lia].
Qed.

(** A cube is enumerated exactly when its cell exists and its level is
    below the cell's height. *)
Lemma In_cells_of_row (i j : nat) (row : list nat) (c : nat * nat * nat) :
  In c (Scene.cells_of_row i j row) <->
  exists k height h,
    c = (i, (j + k)%nat, h) /\ nth_error row k = Some height /\ (h < height)%nat.
Proof.
  revert j; induction row as [|height0 row IH]; intros j; simpl.
  - split; [tauto|]. intros [k [height [h [_ [Hk _]]]]]. destruct k; discriminate.
  - rewrite in_app_iff, In_stack, IH. split.
    + intros [[h [-> Hh]] | [k [height [h [-> [Hk Hh]]]]]].
      * exists 0%nat, height0, h. rewrite Nat.add_0_r. auto.
      * exists (S k), height, h. rewrite Nat.add_succ_r. auto.
    + intros [[|k] [height [h [-> [Hk Hh]]]]]; simpl in Hk.
      * injection Hk as <-. left. exists h. rewrite Nat.add_0_r. auto.
      * right. exists k, height, h. rewrite Nat.add_succ_r. auto.
Qed.

Lemma In_cells_from (i : nat) (g : Scene.Grid) (c : nat * nat * nat) :
  In c (Scene.cells_from i g) <->
  exists k row j height h,
    c = ((i + k)%nat, j, h) /\ nth_error g k = Some row /\
    nth_error row j = Some height /\ (h < height)%nat.
Proof.
  revert i; induction g as [|row0 g IH]; intros i; simpl.
  - split; [tauto|]. intros [k [row [j [height [h [_ [Hk _]]]]]]].
    destruct k; discriminate.
  - rewrite in_app_iff, In_cells_of_row, IH. split.
    + intros [[j [height [h [-> [Hj Hh]]]]]
             | [k [row [j [height [h [-> [Hk [Hj Hh]]]]]]]]].
      * exists 0%nat, row0, j, height, h. rewrite Nat.add_0_r. auto.
      * exists (S k), row, j, height, h. rewrite Nat.add_succ_r. auto.
    + intros [[|k] [row [j [height [h [-> [Hk [Hj Hh]]]]]]]]; simpl in Hk.
      * injection Hk as <-. left. exists j, height, h.
        rewrite Nat.add_0_r. auto.
      * right. exists k, row, j, height, h. rewrite Nat.add_succ_r. auto.
Qed.

Lemma sorted_cells_of_row (i j : nat) (row : list nat) :
  StronglySorted Scene.cell_lt (Scene.cells_of_row i j row).
Proof.
  revert j; induction row as [|height row IH]; intros j; simpl.
  - constructor.
  - apply StronglySorted_app; [apply sorted_stack | apply IH |].
    intros a b Ha Hb.
    apply In_stack in Ha. destruct Ha as [h [-> _]].
    apply In_cells_of_row in Hb. destruct Hb as [k [height' [h' [-> _]]]].
    simpl. right; split; [reflexivity|]. left; lia.
Qed.

Lemma sorted_cells_from (i : nat) (g : Scene.Grid) :
  StronglySorted Scene.cell_lt (Scene.cells_from i g).
Proof.
  revert i; induction g as [|row g IH]; intros i; simpl.
  - constructor.
  - apply StronglySorted_app; [apply sorted_cells_of_row | apply IH |].
    intros a b Ha Hb.
    apply In_cells_of_row in Ha. destruct Ha as [k [height [h [-> _]]]].
    apply In_cells_from in Hb.
    destruct Hb as [k' [row' [j' [height' [h' [-> _]]]]]].
    simpl. left; lia.
Qed.

(* ================================================================= *)
(** ** Vector facts *)

Lemma dot_self_nonneg (v : Vector3.t) : 0 <= Vector3.dot v v.
Proof. unfold Vector3.dot. nra. Qed.

Lemma magnitude_nonneg (v : Vector3.t) : 0 <= Vector3.magnitude v.
Proof. apply sqrt_pos. Qed.

Lemma magnitude_sqr (v : Vector3.t) :
  Vector3.magnitude v * Vector3.magnitude v = Vector3.dot v v.
Proof. apply sqrt_sqrt, dot_self_nonneg. Qed.

Lemma magnitude_zero_iff (v : Vector3.t) :
  Vector3.magnitude v = 0 <-> v = Vector3.zero.
Proof.
  split.
  - intros H. pose proof (magnitude_sqr v) as Hs. rewrite H in Hs.
    unfold Vector3.dot in Hs. destruct v as [a b c]; simpl in Hs.
    unfold Vector3.zero. f_equal; nra.
  - intros ->. unfold Vector3.magnitude, Vector3.dot, Vector3.zero; simpl.
    replace (0 * 0 + 0 * 0 + 0 * 0) with 0 by ring. apply sqrt_0.
Qed.

Lemma magnitude_mul (v : Vector3.t) (k : R) :
  0 <= k -> Vector3.magnitude (Vector3.mul v k) = k * Vector3.magnitude v.
Proof.
  intros Hk. unfold Vector3.magnitude.
  replace (Vector3.dot (Vector3.mul v k) (Vector3.mul v k))
    with (k * k * Vector3.dot v v)
    by (unfold Vector3.dot, Vector3.mul; simpl; ring).
  rewrite sqrt_mult; [| nra | apply dot_self_nonneg].
  now rewrite sqrt_square.
Qed.

(** Normalizing a nonzero vector gives a unit vector. *)
Lemma magnitude_normalize (v : Vector3.t) :
  v <> Vector3.zero -> Vector3.magnitude (Vector3.normalize v) = 1.
Proof.
  intros Hv.
  assert (Hm : Vector3.magnitude v <> 0)
    by (intros H; apply Hv, magnitude_zero_iff, H).
  assert (Hp : 0 < Vector3.magnitude v)
    by (pose proof (magnitude_nonneg v); lra).
  unfold Vector3.normalize.
  rewrite magnitude_mul by (left; now apply Rinv_0_lt_compat).
  now apply Rinv_l.
Qed.

(** A unit vector is its own normalization. *)
Lemma normalize_unit (v : Vector3.t) :
  Vector3.magnitude v = 1 -> Vector3.normalize v = v.
Proof.
  intros H. unfold Vector3.normalize. rewrite H, Rinv_1.
  destruct v; unfold Vector3.mul; simpl. f_equal; ring.
Qed.

Lemma magnitude_001 : Vector3.magnitude (Vector3.mk 0 0 1) = 1.
Proof.
  unfold Vector3.magnitude, Vector3.dot; simpl.
  replace (0 * 0 + 0 * 0 + 1 * 1) with 1 by ring. apply sqrt_1.
Qed.

(** ** Rotation about the world-up axis *)

Lemma setRotate_world_up (angle : R) (v : Vector3.t) :
  Matrix4.multiplyVector3 (Matrix4.setRotate angle 0 1 0) v
  = Main.yaw_by (PI * angle / 180) v.
Proof.
  unfold Matrix4.setRotate, Matrix4.multiplyVector3, Main.yaw_by; simpl.
  replace (0 * 0 + 1 * 1 + 0 * 0) with 1 by ring.
  rewrite sqrt_1. destruct v as [a b c]; simpl.
  f_equal; field.
Qed.

Lemma dot_yaw_by (theta : R) (v : Vector3.t) :
  Vector3.dot (Main.yaw_by theta v) (Main.yaw_by theta v) = Vector3.dot v v.
Proof.
  unfold Vector3.dot, Main.yaw_by; simpl.
  pose proof (sin2_cos2 theta) as H. unfold Rsqr in H.
  nra.
Qed.

Lemma magnitude_yaw_by (theta : R) (v : Vector3.t) :
  Vector3.magnitude (Main.yaw_by theta v) = Vector3.magnitude v.
Proof. unfold Vector3.magnitude. now rewrite dot_yaw_by. Qed.

Lemma degrees_to_radians (yaw : R) : PI * (yaw * 180 / PI) / 180 = yaw.
Proof. field. apply PI_neq0. Qed.

(* ================================================================= *)
(** ** The handlers, variable by variable *)

Lemma camera_move (d : Vector3.t) (w : Main.t) :
  Main.eye (Main.move d w)
  = Vector3.add (Main.eye w) (Vector3.mul (Vector3.normalize d) 0.3) /\
  Main.forward (Main.move d w) = Main.forward w /\
  Main.up (Main.move d w) = Main.up w /\
  Main.at_ (Main.move d w)
  = Vector3.add (Main.at_ w) (Vector3.mul (Vector3.normalize d) 0.3).
Proof. repeat split. Qed.

Lemma camera_keydown (code : string) (w : Main.t) :
  Main.eye (Main.keydown code w) = Main.eye (Main.key_case code w) /\
  Main.forward (Main.keydown code w) = Main.forward (Main.key_case code w) /\
  Main.up (Main.keydown code w) = Main.up (Main.key_case code w) /\
  Main.at_ (Main.keydown code w) = Main.at_ (Main.key_case code w).
Proof. repeat split. Qed.

(** Every movement key ends in one call of [move]. *)
Lemma key_case_movement (code : string) (w : Main.t) :
  In code Main.movement_codes ->
  exists d, Main.key_case code w = Main.move d w.
Proof.
  unfold Main.movement_codes. simpl.
  intros [<- | [<- | [<- | [<- | [<- | [<- | []]]]]]].
  - now exists (Main.forward w).
  - now exists (Vector3.mul (Main.forward w) (-2)).
  - now exists (Vector3.mul (Main.strafe_right w) (-1)).
  - now exists (Main.strafe_right w).
  - now exists (Main.up w).
  - now exists (Vector3.mul (Main.up w) (-1)).
Qed.

(** A key without a case leaves the [switch] without any assignment. *)
Lemma key_case_unhandled (code : string) (w : Main.t) :
  ~ In code Main.handled_codes -> Main.key_case code w = w.
Proof.
  unfold Main.handled_codes; simpl. intros H.
  unfold Main.key_case.
  repeat match goal with
  | |- context [String.eqb code ?s] =>
      destruct (String.eqb_spec code s) as [->|_]; [exfalso; apply H; tauto|]
  end.
  reflexivity.
Qed.


(** ** What holds in every reachable state *)

Lemma yaw_step_ok (theta : R) (v : Vector3.t) :
  Vector3.magnitude v = 1 -> Vector3.y v = 0 ->
  Vector3.normalize (Main.yaw_by theta v) = Main.yaw_by theta v /\
  Vector3.magnitude (Main.yaw_by theta v) = 1 /\
  Vector3.y (Main.yaw_by theta v) = 0.
Proof.
  intros Hm Hy.
  assert (H1 : Vector3.magnitude (Main.yaw_by theta v) = 1)
    by now rewrite magnitude_yaw_by.
  split; [now apply normalize_unit | split; [assumption | exact Hy]].
Qed.

Lemma camera_ok_startup (aspect : R) (g : GL.Context) :
  camera_ok (Main.startup aspect g).
Proof.
  unfold camera_ok, Main.startup; cbn [Main.up Main.forward Main.drawScene
    Main.updateProjectionMatrix Main.updateViewMatrix Main.set_gl
    Main.set_projectionMatrix Main.set_viewMatrix].
  rewrite (normalize_unit _ magnitude_001).
  repeat split. apply magnitude_001.
Qed.

Lemma camera_ok_key_case (code : string) (w : Main.t) :
  camera_ok w -> camera_ok (Main.key_case code w).
Proof.
  intros [Hup [Hm Hy]]. unfold Main.key_case.
  repeat match goal with
  | |- context [String.eqb code ?s] => destruct (String.eqb code s)
  end;
  try (repeat split; assumption).
  - unfold camera_ok; cbn [Main.up Main.forward Main.set_at Main.set_forward].
    rewrite Hup; cbn [Main.world_up Vector3.x Vector3.y Vector3.z].
    rewrite setRotate_world_up.
    destruct (yaw_step_ok (PI * -5 / 180) _ Hm Hy) as [-> [? ?]]. auto.
  - unfold camera_ok; cbn [Main.up Main.forward Main.set_at Main.set_forward].
    rewrite Hup; cbn [Main.world_up Vector3.x Vector3.y Vector3.z].
    rewrite setRotate_world_up.
    destruct (yaw_step_ok (PI * 5 / 180) _ Hm Hy) as [-> [? ?]]. auto.
Qed.

Lemma camera_ok_mousemove (locked : bool) (mx : R) (w : Main.t) :
  camera_ok w -> camera_ok (Main.mousemove locked mx w).
Proof.
  intros [Hup [Hm Hy]]. destruct locked; [|repeat split; assumption].
  unfold camera_ok, Main.mousemove;
    cbn [Main.up Main.forward Main.set_forward Main.drawScene Main.set_gl
         Main.updateViewMatrix Main.set_viewMatrix].
  rewrite Hup; cbn [Main.world_up Vector3.x Vector3.y Vector3.z].
  rewrite setRotate_world_up.
  destruct (yaw_step_ok (PI * (- mx * 0.002 * 180 / PI) / 180) _ Hm Hy)
    as [-> [? ?]]. auto.
Qed.

Lemma reachable_camera_ok (w : Main.t) : Main.reachable w -> camera_ok w.
Proof.
  induction 1 as [aspect g | e w Hw IH].
  - apply camera_ok_startup.
  - destruct e as [code | locked mx]; simpl.
    + apply (camera_ok_key_case code) in IH. exact IH.
    + now apply camera_ok_mousemove.
Qed.

(* ================================================================= *)
(** ** Mouse look *)

Lemma mousemove_locked (mx : R) (w : Main.t) :
  Main.up w = Main.world_up ->
  Main.eye (Main.mousemove true mx w) = Main.eye w /\
  Main.at_ (Main.mousemove true mx w) = Main.at_ w /\
  Main.forward (Main.mousemove true mx w)
  = Vector3.normalize (Main.yaw_by (- mx * 0.002) (Main.forward w)).
Proof.
  intros Hup. split; [reflexivity | split; [reflexivity|]].
  unfold Main.mousemove;
    cbn [Main.forward Main.set_forward Main.drawScene Main.set_gl
         Main.updateViewMatrix Main.set_viewMatrix].
  rewrite Hup; cbn [Main.world_up Vector3.x Vector3.y Vector3.z].
  now rewrite setRotate_world_up, degrees_to_radians.
Qed.

Lemma up_mousemove (locked : bool) (mx : R) (w : Main.t) :
  Main.up (Main.mousemove locked mx w) = Main.up w.
Proof. destruct locked; reflexivity. Qed.

Lemma cos_lt_1 (a : R) : 0 < a -> a < 2 * PI -> cos a < 1.
Proof.
  intros H0 H1.
  replace a with (2 * (a / 2)) by field.
  rewrite cos_2a_sin.
  assert (Hs : 0 < sin (a / 2)) by (apply sin_gt_0; lra).
  nra.
Qed.

(** A horizontal unit vector turned about [+Y] by an angle whose cosine
    is not [1] is a different vector. *)
Lemma yaw_by_moves (theta : R) (v : Vector3.t) :
  Vector3.magnitude v = 1 -> Vector3.y v = 0 -> cos theta <> 1 ->
  Main.yaw_by theta v <> v.
Proof.
  intros Hm Hy Hc Heq.
  pose proof (magnitude_sqr v) as Hs. rewrite Hm in Hs.
  unfold Vector3.dot in Hs. rewrite Hy in Hs.
  destruct v as [a b c]; unfold Main.yaw_by in Heq; simpl in *.
  injection Heq as Hx Hz.
  apply Hc.
  assert (H : (a * a + c * c) * (cos theta - 1) = 0) by nra.
  nra.
Qed.

Lemma add_cancel_l (p a b : Vector3.t) :
  Vector3.add p a = Vector3.add p b -> a = b.
Proof.
  destruct p, a, b; unfold Vector3.add; simpl.
  intros H; injection H as H1 H2 H3. f_equal; lra.
Qed.

(** After a mouse look that turns [forward], [at] is the old one and no
    longer [eye + forward]. *)
Lemma mousemove_stale_at (mx : R) (w : Main.t) :
  camera_ok w ->
  Main.at_ w = Vector3.add (Main.eye w) (Main.forward w) ->
  cos (- mx * 0.002) <> 1 ->
  Main.at_ (Main.mousemove true mx w)
  <> Vector3.add (Main.eye (Main.mousemove true mx w))
                 (Main.forward (Main.mousemove true mx w)).
Proof.
  intros [Hup [Hm Hy]] Hat Hc.
  destruct (mousemove_locked mx w Hup) as [-> [-> ->]].
  destruct (yaw_step_ok (- mx * 0.002) _ Hm Hy) as [-> _].
  rewrite Hat. intros H. apply add_cancel_l in H.
  symmetry in H. revert H. now apply yaw_by_moves.
Qed.

(* ================================================================= *)
(** ** Concrete runs *)

Lemma PI_gt_3 : 3 < PI.
Proof. pose proof PI2_3_2. lra. Qed.

Lemma sin_02_lower : 0.1 < sin 0.2.
Proof.
  assert (H : 0 <= 0.2) by lra.
  assert (H' : 0.2 <= PI) by (pose proof PI_gt_3; lra).
  destruct (SIN 0.2 H H') as [Hlb _].
  eapply Rlt_le_trans; [| exact Hlb].
  unfold sin_lb, sin_approx, sin_term. simpl sum_f_R0.
  unfold Rdiv. simpl.
  lra.
Qed.

Lemma cos_02_not_1 : cos (- 100 * 0.002) <> 1.
Proof.
  replace (- 100 * 0.002) with (Ropp 0.2) by lra.
  rewrite cos_neg.
  assert (H : cos 0.2 < 1)
    by (apply cos_lt_1; [lra | pose proof PI_gt_3; lra]).
  lra.
Qed.

Lemma started_camera :
  Main.eye started = Vector3.mk 0 2 (-5) /\
  Main.forward started = Vector3.mk 0 0 1 /\
  Main.up started = Vector3.mk 0 1 0 /\
  Main.at_ started = Vector3.mk 0 2 0.
Proof.
  unfold started, Main.startup;
    cbn [Main.eye Main.forward Main.up Main.at_ Main.drawScene Main.set_gl
         Main.updateProjectionMatrix Main.updateViewMatrix
         Main.set_projectionMatrix Main.set_viewMatrix].
  rewrite (normalize_unit _ magnitude_001). repeat split.
Qed.

(* ================================================================= *)
(** ** Mouse look leaves [at] behind *)

(** C1.  The claim: every mouse move under pointer lock turns [forward]
    about the world-up axis by [-movementX * 0.002] radians, renormalizes
    it, and recomputes [at], so that afterwards [at = eye + forward].
    The handler does the first two and never assigns [at].  Run: start the
    script, press [KeyQ] (after which [at = eye + forward]), then move the
    mouse by 100 pixels under pointer lock.  [forward] is the old one
    turned by [-0.2] radians and renormalized, [at] is what it was, and
    [at] is not [eye + forward]. *)
Theorem mousemove_leaves_at_stale :
  let w := Main.keydown "KeyQ" started in
  let w' := Main.mousemove true 100 w in
  Main.at_ w = Vector3.add (Main.eye w) (Main.forward w) /\
  Main.forward w'
  = Vector3.normalize (Main.yaw_by (- 100 * 0.002) (Main.forward w)) /\
  Vector3.magnitude (Main.forward w') = 1 /\
  Main.at_ w' = Main.at_ w /\
  Main.at_ w' <> Vector3.add (Main.eye w') (Main.forward w').
Proof.
  intros w w'.
  assert (Hok : camera_ok w).
  { apply reachable_camera_ok.
    apply (Main.reach_handle (Main.KeyDown "KeyQ")), Main.reach_startup. }
  assert (Hat : Main.at_ w = Vector3.add (Main.eye w) (Main.forward w))
    by reflexivity.
  destruct (mousemove_locked 100 w (proj1 Hok)) as [_ [Hat' Hf]].
  split; [exact Hat|]. split; [exact Hf|].
  split; [apply (camera_ok_mousemove true 100 w Hok)|].
  split; [exact Hat'|].
  apply mousemove_stale_at; [exact Hok | exact Hat | exact cos_02_not_1].
Qed.

(* ================================================================= *)
(** ** The strafe direction *)

Lemma dot_cross_r (a b : Vector3.t) : Vector3.dot (Vector3.cross a b) b = 0.
Proof. unfold Vector3.dot, Vector3.cross; simpl; ring. Qed.

Lemma dot_mul_l (a b : Vector3.t) (k : R) :
  Vector3.dot (Vector3.mul a k) b = k * Vector3.dot a b.
Proof. unfold Vector3.dot, Vector3.mul; simpl; ring. Qed.

(** [right] is always perpendicular to [up]. *)
Lemma strafe_right_up (w : Main.t) :
  Vector3.dot (Main.strafe_right w) (Main.up w) = 0.
Proof.
  unfold Main.strafe_right, Vector3.normalize at 1.
  rewrite dot_mul_l, dot_cross_r. ring.
Qed.

(** [right] is perpendicular to [forward] whenever [at - eye] is a multiple
    of [forward], as it is as long as [at] follows [forward]. *)
Lemma strafe_right_forward (w : Main.t) (k : R) :
  Vector3.sub (Main.at_ w) (Main.eye w) = Vector3.mul (Main.forward w) k ->
  Vector3.dot (Main.strafe_right w) (Main.forward w) = 0.
Proof.
  intros H. unfold Main.strafe_right, Vector3.normalize. rewrite H.
  unfold Vector3.dot, Vector3.cross, Vector3.mul; simpl. ring.
Qed.

Lemma magnitude_005 : Vector3.magnitude (Vector3.mk 0 0 5) = 5.
Proof.
  unfold Vector3.magnitude, Vector3.dot; simpl.
  replace (0 * 0 + 0 * 0 + 5 * 5) with (5 * 5) by ring.
  apply sqrt_square; lra.
Qed.

Lemma magnitude_m100 : Vector3.magnitude (Vector3.mk (-1) 0 0) = 1.
Proof.
  unfold Vector3.magnitude, Vector3.dot; simpl.
  replace (-1 * -1 + 0 * 0 + 0 * 0) with 1 by ring. apply sqrt_1.
Qed.

Lemma key_case_KeyD (w : Main.t) :
  Main.key_case "KeyD" w = Main.move (Main.strafe_right w) w.
Proof. reflexivity. Qed.

Lemma sub_add_add (a e m : Vector3.t) :
  Vector3.sub (Vector3.add a m) (Vector3.add e m) = Vector3.sub a e.
Proof. unfold Vector3.sub, Vector3.add; simpl; f_equal; ring. Qed.

Lemma aligned_move (d : Vector3.t) (w : Main.t) (k : R) :
  Vector3.sub (Main.at_ w) (Main.eye w) = Vector3.mul (Main.forward w) k ->
  Vector3.sub (Main.at_ (Main.move d w)) (Main.eye (Main.move d w))
  = Vector3.mul (Main.forward (Main.move d w)) k.
Proof.
  intros H. destruct (camera_move d w) as [-> [-> [_ ->]]].
  now rewrite sub_add_add.
Qed.

(** Without mouse look, [at - eye] stays a multiple of [forward]. *)
Lemma key_reachable_aligned (w : Main.t) :
  Main.key_reachable w ->
  exists k, Vector3.sub (Main.at_ w) (Main.eye w)
            = Vector3.mul (Main.forward w) k.
Proof.
  induction 1 as [aspect g | code w Hw [k IH]].
  - exists 5.
    unfold Main.startup;
      cbn [Main.eye Main.forward Main.at_ Main.drawScene Main.set_gl
           Main.updateProjectionMatrix Main.updateViewMatrix
           Main.set_projectionMatrix Main.set_viewMatrix].
    rewrite (normalize_unit _ magnitude_001).
    unfold Vector3.sub, Vector3.mul; simpl. f_equal; ring.
  - destruct (camera_keydown code w) as [-> [-> [_ ->]]].
    unfold Main.key_case.
    repeat match goal with
    | |- context [String.eqb code ?s] => destruct (String.eqb code s)
    end.
    all: try (exists k; apply aligned_move; exact IH).
    all: try (exists k; exact IH).
    all: exists 1;
      cbn [Main.eye Main.at_ Main.forward Main.set_at Main.set_forward];
      unfold Vector3.sub, Vector3.add, Vector3.mul; simpl; f_equal; ring.
Qed.

(** So, as long as the mouse is not used, [right] is perpendicular to
    [forward]. *)
Lemma strafe_right_perpendicular_by_keys (w : Main.t) :
  Main.key_reachable w ->
  Vector3.dot (Main.strafe_right w) (Main.forward w) = 0.
Proof.
  intros Hw. destruct (key_reachable_aligned w Hw) as [k Hk].
  exact (strafe_right_forward w k Hk).
Qed.

(** C6.  The claim: in every reachable state the strafe direction [right]
    is perpendicular to [forward] and to [up].  Run: start the script and
    move the mouse by 100 pixels under pointer lock; [forward] turns,
    [at] stays, and the [right] that a [KeyD] then passes to [move] is
    [(-1, 0, 0)], whose inner product with [forward] is [sin 0.2], more
    than [0.1]; with [up] it is [0]. *)
Theorem strafe_right_not_perpendicular_after_mouse :
  let w := Main.mousemove true 100 started in
  Main.reachable w /\
  Main.key_case "KeyD" w = Main.move (Main.strafe_right w) w /\
  Main.strafe_right w = Vector3.mk (-1) 0 0 /\
  Vector3.dot (Main.strafe_right w) (Main.forward w) = sin 0.2 /\
  0.1 < Vector3.dot (Main.strafe_right w) (Main.forward w) /\
  Vector3.dot (Main.strafe_right w) (Main.up w) = 0.
Proof.
  intros w.
  destruct started_camera as [He [Hf [Hu Ha]]].
  destruct (mousemove_locked 100 started Hu) as [He' [Ha' Hf']].
  fold w in He', Ha', Hf'.
  assert (Hr : Main.strafe_right w = Vector3.mk (-1) 0 0).
  { unfold Main.strafe_right. rewrite Ha', He', Ha, He.
    unfold w at 1. rewrite up_mousemove, Hu.
    replace (Vector3.sub (Vector3.mk 0 2 0) (Vector3.mk 0 2 (-5)))
      with (Vector3.mk 0 0 5)
      by (unfold Vector3.sub; simpl; f_equal; ring).
    replace (Vector3.normalize (Vector3.mk 0 0 5)) with (Vector3.mk 0 0 1)
      by (unfold Vector3.normalize, Vector3.mul; rewrite magnitude_005;
          simpl; f_equal; field).
    replace (Vector3.cross (Vector3.mk 0 0 1) (Vector3.mk 0 1 0))
      with (Vector3.mk (-1) 0 0)
      by (unfold Vector3.cross; simpl; f_equal; ring).
    apply normalize_unit, magnitude_m100. }
  assert (Hd : Vector3.dot (Main.strafe_right w) (Main.forward w) = sin 0.2).
  { rewrite Hr, Hf', Hf.
    rewrite (normalize_unit (Main.yaw_by _ _))
      by (rewrite magnitude_yaw_by; apply magnitude_001).
    unfold Vector3.dot, Main.yaw_by; simpl.
    replace (- (100) * 0.002) with (Ropp 0.2) by lra.
    rewrite sin_neg. ring. }
  split; [apply (Main.reach_handle (Main.MouseMove true 100)),
          Main.reach_startup|].
  split; [apply key_case_KeyD|].
  split; [exact Hr|].
  split; [exact Hd|].
  split; [rewrite Hd; exact sin_02_lower | apply strafe_right_up].
Qed.

(* ================================================================= *)
(** ** The look-at invariant *)

(** C2, counterexample.  Right after startup [at] is [(0, 2, 0)] while
    [eye + forward] is [(0, 2, -4)]. *)
Lemma startup_breaks_look_invariant : ~ look_invariant started.
Proof.
  intros [H _]. destruct started_camera as [He [Hf [_ Ha]]].
  rewrite He, Hf, Ha in H. unfold Vector3.add in H; simpl in H.
  injection H as H. lra.
Qed.

(* ================================================================= *)
(** ** Yaw keys *)



(* ================================================================= *)
(** ** The scene *)

Lemma draw_of_stacked (c : nat * nat * nat) :
  draw_of (stacked_args c) = Scene.stacked_draw c.
Proof. destruct c as [[i j] h]. reflexivity. Qed.

Lemma replay_emitted_loop (g : Scene.Grid) (v p : Matrix4.t) (b : GL.Buffer)
  (m : GL.Machine) :
  GL.replay m (Scene.emitted g v p b)
  = Scene.sky_draw :: Scene.ground_draw
      :: List.map Scene.stacked_draw (loop_cells g).
Proof.
  rewrite replay_emitted. cbn [List.map]. rewrite map_map.
  do 2 f_equal. apply map_ext, draw_of_stacked.
Qed.

Lemma calls_drawScene (g : Scene.Grid) (v p : Matrix4.t) (ctx : GL.Context) :
  GL.calls (GL.exec (Scene.drawScene g v p) ctx)
  = GL.calls ctx ++ Scene.emitted g v p (GL.next_buffer ctx).
Proof.
  unfold Scene.emitted, GL.exec. rewrite !drawScene_log. reflexivity.
Qed.

Lemma rectangular_map : Scene.rectangular Scene.map.
Proof. unfold Scene.rectangular, Scene.map. repeat constructor. Qed.

(** C3.  For a height grid, one [drawScene] issues one sky draw, then one
    ground draw, then one draw per stacked cube, as many as the sum of
    all cell heights, in row-major order of the grid and bottom-to-top
    within a cell: the cubes drawn are exactly those below their cell's
    height, each once, in increasing (row, column, level) order. *)
Theorem drawScene_draws (g : Scene.Grid) (v p : Matrix4.t) (b : GL.Buffer)
  (m : GL.Machine) :
  Scene.rectangular g ->
  GL.replay m (Scene.emitted g v p b)
  = Scene.sky_draw :: Scene.ground_draw
      :: List.map Scene.stacked_draw (Scene.cells g) /\
  length (Scene.cells g) = Scene.total_height g /\
  StronglySorted Scene.cell_lt (Scene.cells g) /\
  (forall i j h,
     In (i, j, h) (Scene.cells g) <->
     exists row height,
       nth_error g i = Some row /\ nth_error row j = Some height /\
       (h < height)%nat).
Proof.
  intros Hg.
  split; [rewrite replay_emitted_loop, loop_cells_rectangular by assumption;
          reflexivity|].
  split; [apply length_cells_from|].
  split; [apply sorted_cells_from|].
  intros i j h. unfold Scene.cells. rewrite In_cells_from. split.
  - intros [k [row [j' [height [h' [Heq [Hk [Hj Hh]]]]]]]].
    injection Heq as -> -> ->. exists row, height. auto.
  - intros [row [height [Hi [Hj Hh]]]].
    exists i, row, j, height, h. auto.
Qed.

(** The grid [[1, 0], [0, 2]]: three stacked cubes after sky and ground. *)
Lemma drawScene_draws_witness :
  Scene.rectangular [[1; 0]; [0; 2]]%nat /\
  GL.replay GL.power_on
    (Scene.emitted [[1; 0]; [0; 2]]%nat Matrix4.identity Matrix4.identity
       0%nat)
  = [ Scene.sky_draw; Scene.ground_draw;
      Scene.stacked_draw (0, 0, 0)%nat;
      Scene.stacked_draw (1, 1, 0)%nat;
      Scene.stacked_draw (1, 1, 1)%nat ] /\
  Scene.total_height [[1; 0]; [0; 2]]%nat = 3%nat.
Proof.
  assert (H : Scene.rectangular [[1; 0]; [0; 2]]%nat)
    by (unfold Scene.rectangular; repeat constructor).
  split; [exact H|].
  destruct (drawScene_draws [[1; 0]; [0; 2]]%nat Matrix4.identity
              Matrix4.identity 0%nat GL.power_on H) as [H1 _].
  split; [exact H1 | reflexivity].
Defined.

(** C9.  A keydown whose code has no case in the [switch] leaves [eye],
    [at], [forward] and [up] as they were; the handler still rebuilds the
    view matrix from them and redraws the whole scene once. *)
Theorem unhandled_key_redraws (code : string) (w : Main.t) :
  ~ In code Main.handled_codes ->
  Main.eye (Main.keydown code w) = Main.eye w /\
  Main.at_ (Main.keydown code w) = Main.at_ w /\
  Main.forward (Main.keydown code w) = Main.forward w /\
  Main.up (Main.keydown code w) = Main.up w /\
  Main.viewMatrix (Main.keydown code w)
  = Matrix4.setLookAt (Main.eye w) (Main.at_ w) (Main.up w) /\
  Main.projectionMatrix (Main.keydown code w) = Main.projectionMatrix w /\
  GL.calls (Main.gl (Main.keydown code w))
  = GL.calls (Main.gl w)
      ++ Scene.emitted Scene.map
           (Matrix4.setLookAt (Main.eye w) (Main.at_ w) (Main.up w))
           (Main.projectionMatrix w) (GL.next_buffer (Main.gl w)) /\
  (forall m,
     GL.replay m
       (Scene.emitted Scene.map
          (Matrix4.setLookAt (Main.eye w) (Main.at_ w) (Main.up w))
          (Main.projectionMatrix w) (GL.next_buffer (Main.gl w)))
     = Scene.sky_draw :: Scene.ground_draw
         :: List.map Scene.stacked_draw (Scene.cells Scene.map)).
Proof.
  intros Hc. unfold Main.keydown. rewrite (key_case_unhandled code w Hc).
  repeat (split; [reflexivity|]).
  split.
  - unfold Main.drawScene, Main.updateViewMatrix;
      cbn [Main.gl Main.set_gl Main.set_viewMatrix Main.viewMatrix
           Main.projectionMatrix Main.eye Main.at_ Main.up].
    apply calls_drawScene.
  - intros m. rewrite replay_emitted_loop.
    now rewrite (loop_cells_rectangular _ rectangular_map).
Qed.

Lemma unhandled_key_redraws_witness :
  ~ In "KeyZ"%string Main.handled_codes /\
  Main.eye (Main.keydown "KeyZ" started) = Main.eye started /\
  Main.at_ (Main.keydown "KeyZ" started) = Main.at_ started.
Proof.
  assert (H : ~ In "KeyZ"%string Main.handled_codes).
  { unfold Main.handled_codes; simpl.
    intros [H | [H | [H | [H | [H | [H | [H | [H | []]]]]]]]]; discriminate H. }
  split; [exact H|].
  destruct (unhandled_key_redraws "KeyZ" started H) as [H1 [H2 _]].
  split; [exact H1 | exact H2].
Defined.

Lemma In_cube_blocks (c : GL.Call) (l : list CubeArgs) (b : GL.Buffer) :
  In c (cube_blocks b l) -> exists b' a, In c (cube_block b' a).
Proof.
  revert b; induction l as [|a l IH]; intros b; simpl; [tauto|].
  rewrite in_app_iff. intros [H | H]; [exists b, a; exact H | eauto].
Qed.

(** C10.  Whatever the grid, every draw of one [drawScene] is a triangle
    strip over exactly the four corners of the [z = +0.5] face of the unit
    cube; every [drawArrays] in the log is [drawArrays(TRIANGLE_STRIP, 0,
    4)], and every buffer uploaded holds those four vertices and nothing
    else. *)
Theorem every_cube_draws_front_face (g : Scene.Grid) (v p : Matrix4.t)
  (b : GL.Buffer) (m : GL.Machine) (d : GL.Draw) :
  In d (GL.replay m (Scene.emitted g v p b)) ->
  GL.d_mode d = GL.TRIANGLE_STRIP /\
  GL.d_positions d = Scene.front_face /\
  length (GL.d_positions d) = 4%nat /\
  Forall (fun q => nth 2 q 0 = 0.5) (GL.d_positions d) /\
  (forall mode first count,
     In (GL.drawArrays mode first count) (Scene.emitted g v p b) ->
     mode = GL.TRIANGLE_STRIP /\ first = 0%nat /\ count = 4%nat) /\
  (forall data,
     In (GL.bufferData data) (Scene.emitted g v p b) ->
     data = Cube.vertex_data /\ length data = (4 * 5)%nat) /\
  length (GL.replay m (Scene.emitted g v p b))
  = (2 + length (loop_cells g))%nat.
Proof.
  intros Hd. rewrite replay_emitted in Hd.
  assert (Hshape : exists a, d = draw_of a).
  { apply in_map_iff in Hd. destruct Hd as [a [<- _]]. now exists a. }
  destruct Hshape as [[[mat wt] col] ->].
  split; [reflexivity|]. split; [reflexivity|]. split; [reflexivity|].
  split; [repeat constructor|].
  assert (Hlog : forall c, In c (Scene.emitted g v p b) ->
            In c (scene_header v p) \/ exists b' a, In c (cube_block b' a)).
  { intros c. unfold Scene.emitted, GL.exec. rewrite drawScene_log.
    cbn [snd GL.calls GL.next_buffer app]. rewrite in_app_iff.
    intros [H | H]; [left; exact H | right; eapply In_cube_blocks, H]. }
  split; [|split].
  - intros mode first count H. apply Hlog in H.
    destruct H as [H | [b' [[[mat' wt'] col'] H]]]; simpl in H.
    + repeat (destruct H as [H | H]; [discriminate H|]). destruct H.
    + repeat (destruct H as [H | H];
              [first [discriminate H | injection H as <- <- <-; auto]|]).
      destruct H.
  - intros data H. apply Hlog in H.
    destruct H as [H | [b' [[[mat' wt'] col'] H]]]; simpl in H.
    + repeat (destruct H as [H | H]; [discriminate H|]). destruct H.
    + repeat (destruct H as [H | H];
              [first [discriminate H | injection H as <-; auto]|]).
      destruct H.
  - rewrite replay_emitted. cbn [List.map length].
    now rewrite !length_map.
Qed.

Lemma every_cube_draws_front_face_witness :
  In Scene.ground_draw
     (GL.replay GL.power_on
        (Scene.emitted Scene.map Matrix4.identity Matrix4.identity 0%nat)) /\
  GL.d_positions Scene.ground_draw = Scene.front_face.
Proof.
  assert (H : In Scene.ground_draw
                (GL.replay GL.power_on
                   (Scene.emitted Scene.map Matrix4.identity
                                  Matrix4.identity 0%nat)))
    by (rewrite replay_emitted_loop; simpl; auto).
  split; [exact H|].
  destruct (every_cube_draws_front_face Scene.map Matrix4.identity
              Matrix4.identity 0%nat GL.power_on Scene.ground_draw H)
    as [_ [H2 _]].
  exact H2.
Defined.

(* ================================================================= *)
(** ** Further properties of the handlers *)

(** *** The view and projection matrices *)

Lemma reachable_view_matrix (w : Main.t) :
  Main.reachable w ->
  Main.viewMatrix w
  = Matrix4.setLookAt (Main.eye w) (Main.at_ w) (Main.up w).
Proof.
  induction 1 as [aspect g | e w Hw IH].
  - reflexivity.
  - destruct e as [code | locked mx]; [reflexivity|].
    destruct locked; [reflexivity | exact IH].
Qed.

(** X1.  In every reachable state the view matrix is the look-at matrix of
    the current [eye], [at] and [up]: no handler leaves it stale. *)
Theorem view_matrix_in_sync (w : Main.t) :
  Main.reachable w ->
  Main.viewMatrix w
  = Matrix4.setLookAt (Main.eye w) (Main.at_ w) (Main.up w).
Proof.
  intros Hw. induction Hw as [aspect g | e w Hw IH].
  - (* startup: updateViewMatrix, and no camera write after it *)
    reflexivity.
  - destruct e as [code | locked mx].
    + (* keydown ends with updateViewMatrix *)
      reflexivity.
    + destruct locked.
      * (* mousemove under lock: updateViewMatrix after the write *)
        reflexivity.
      * (* mousemove without lock: nothing written *)
        exact IH.
Qed.

Lemma view_matrix_in_sync_witness :
  Main.reachable (Main.keydown "KeyW" started) /\
  Main.viewMatrix (Main.keydown "KeyW" started)
  = Matrix4.setLookAt (Main.eye (Main.keydown "KeyW" started))
                      (Main.at_ (Main.keydown "KeyW" started))
                      (Main.up (Main.keydown "KeyW" started)).
Proof.
  assert (H : Main.reachable (Main.keydown "KeyW" started))
    by (apply (Main.reach_handle (Main.KeyDown "KeyW")), Main.reach_startup).
  split; [exact H | exact (view_matrix_in_sync _ H)].
Defined.

Lemma projection_handle (e : Main.Event) (w : Main.t) :
  Main.projectionMatrix (Main.handle e w) = Main.projectionMatrix w.
Proof.
  destruct e as [code | locked mx]; simpl.
  - unfold Main.keydown, Main.key_case.
    repeat match goal with
    | |- context [String.eqb code ?s] => destruct (String.eqb code s)
    end; reflexivity.
  - destruct locked; reflexivity.
Qed.

(** X2.  The projection matrix is the one set at startup, for the canvas
    aspect ratio read then, whatever events follow. *)
Theorem projection_never_changes (aspect : R) (g : GL.Context)
  (es : list Main.Event) :
  Main.projectionMatrix (run_events es (Main.startup aspect g))
  = Matrix4.setPerspective 60 aspect 0.1 100.
Proof.
  unfold run_events.
  assert (H : forall w,
            Main.projectionMatrix (fold_left (fun w e => Main.handle e w) es w)
            = Main.projectionMatrix w).
  { induction es as [|e es IH]; intros w; simpl; [reflexivity|].
    now rewrite IH, projection_handle. }
  rewrite H. reflexivity.
Qed.

(** *** Redraws *)

Lemma next_buffer_drawScene (g : Scene.Grid) (v p : Matrix4.t)
  (ctx : GL.Context) :
  GL.next_buffer (GL.exec (Scene.drawScene g v p) ctx)
  = (GL.next_buffer ctx + (2 + length (loop_cells g)))%nat.
Proof. unfold GL.exec. rewrite drawScene_log. reflexivity. Qed.

Lemma length_loop_cells_map : length (loop_cells Scene.map) = 16%nat.
Proof. reflexivity. Qed.

(** One [drawScene] of the script, as it shows in the log. *)
Lemma gl_drawScene (w : Main.t) :
  GL.calls (Main.gl (Main.drawScene w))
  = GL.calls (Main.gl w)
      ++ Scene.emitted Scene.map (Main.viewMatrix w) (Main.projectionMatrix w)
           (GL.next_buffer (Main.gl w)) /\
  GL.next_buffer (Main.gl (Main.drawScene w))
  = (GL.next_buffer (Main.gl w) + 18)%nat.
Proof.
  unfold Main.drawScene; cbn [Main.gl Main.set_gl]. split.
  - apply calls_drawScene.
  - rewrite next_buffer_drawScene, length_loop_cells_map. reflexivity.
Qed.

(** X3.  A mouse move never changes [eye], [at] or [up], and in a
    reachable state it never changes the view matrix either: under pointer
    lock the handler redraws the scene once, with the very view matrix
    that was in force before, and without pointer lock it does nothing. *)
Theorem mousemove_keeps_view (mx : R) (w : Main.t) :
  Main.reachable w ->
  (forall locked,
     Main.eye (Main.mousemove locked mx w) = Main.eye w /\
     Main.at_ (Main.mousemove locked mx w) = Main.at_ w /\
     Main.up (Main.mousemove locked mx w) = Main.up w /\
     Main.viewMatrix (Main.mousemove locked mx w) = Main.viewMatrix w) /\
  GL.calls (Main.gl (Main.mousemove true mx w))
  = GL.calls (Main.gl w)
      ++ Scene.emitted Scene.map (Main.viewMatrix w) (Main.projectionMatrix w)
           (GL.next_buffer (Main.gl w)) /\
  Main.mousemove false mx w = w.
Proof.
  intros Hw. pose proof (reachable_view_matrix w Hw) as Hv.
  split; [|split; [|reflexivity]].
  - intros [|]; repeat split; try reflexivity.
    rewrite Hv. reflexivity.
  - unfold Main.mousemove.
    match goal with
    | |- GL.calls (Main.gl (Main.drawScene ?x)) = _ =>
        destruct (gl_drawScene x) as [-> _]
    end.
    cbn [Main.gl Main.viewMatrix Main.projectionMatrix Main.updateViewMatrix
         Main.set_viewMatrix Main.set_forward Main.eye Main.at_ Main.up].
    now rewrite Hv.
Qed.

Lemma mousemove_keeps_view_witness :
  Main.reachable started /\
  Main.viewMatrix (Main.mousemove true 100 started) = Main.viewMatrix started.
Proof.
  assert (H : Main.reachable started) by apply Main.reach_startup.
  split; [exact H|].
  destruct (mousemove_keeps_view 100 started H) as [H1 _].
  destruct (H1 true) as [_ [_ [_ H4]]]. exact H4.
Defined.

Lemma gl_move (d : Vector3.t) (w : Main.t) :
  GL.calls (Main.gl (Main.move d w))
  = GL.calls (Main.gl w)
      ++ Scene.emitted Scene.map
           (Matrix4.setLookAt (Main.eye (Main.move d w))
              (Main.at_ (Main.move d w)) (Main.up w))
           (Main.projectionMatrix w) (GL.next_buffer (Main.gl w)) /\
  GL.next_buffer (Main.gl (Main.move d w))
  = (GL.next_buffer (Main.gl w) + 18)%nat.
Proof.
  unfold Main.move.
  match goal with
  | |- context [Main.drawScene ?x] => destruct (gl_drawScene x) as [-> ->]
  end.
  split; reflexivity.
Qed.

Lemma gl_move_redraw (d : Vector3.t) (w : Main.t) :
  let w' := Main.drawScene (Main.updateViewMatrix (Main.move d w)) in
  let V := Matrix4.setLookAt (Main.eye w') (Main.at_ w') (Main.up w') in
  let P := Main.projectionMatrix w in
  let b := GL.next_buffer (Main.gl w) in
  Main.viewMatrix w' = V /\
  GL.calls (Main.gl w')
  = GL.calls (Main.gl w)
      ++ Scene.emitted Scene.map V P b
      ++ Scene.emitted Scene.map V P (b + 18)%nat /\
  GL.next_buffer (Main.gl w') = (b + 36)%nat.
Proof.
  intros w' V P b.
  destruct (gl_drawScene (Main.updateViewMatrix (Main.move d w)))
    as [Hc2 Hn2].
  destruct (gl_move d w) as [Hc1 Hn1].
  split; [reflexivity|]. split.
  - unfold w'. rewrite Hc2.
    change (Main.gl (Main.updateViewMatrix (Main.move d w)))
      with (Main.gl (Main.move d w)).
    rewrite Hc1, Hn1, <- app_assoc. reflexivity.
  - unfold w'. rewrite Hn2.
    change (Main.gl (Main.updateViewMatrix (Main.move d w)))
      with (Main.gl (Main.move d w)).
    rewrite Hn1. unfold b. lia.
Qed.

(** X4.  A movement key redraws the whole scene twice, once inside [move]
    and once at the end of the handler, both times with the same view
    matrix (that of the new [eye] and [at]); the two redraws use 36 fresh
    buffers. *)
Theorem movement_key_redraws_twice (code : string) (w : Main.t) :
  In code Main.movement_codes ->
  let w' := Main.keydown code w in
  let V := Matrix4.setLookAt (Main.eye w') (Main.at_ w') (Main.up w') in
  let P := Main.projectionMatrix w in
  let b := GL.next_buffer (Main.gl w) in
  Main.viewMatrix w' = V /\
  GL.calls (Main.gl w')
  = GL.calls (Main.gl w)
      ++ Scene.emitted Scene.map V P b
      ++ Scene.emitted Scene.map V P (b + 18)%nat /\
  GL.next_buffer (Main.gl w') = (b + 36)%nat.
Proof.
  intros Hc.
  destruct (key_case_movement code w Hc) as [d Hd].
  unfold Main.keydown. rewrite Hd.
  exact (gl_move_redraw d w).
Qed.

Lemma movement_key_redraws_twice_witness :
  In "Space"%string Main.movement_codes /\
  GL.next_buffer (Main.gl (Main.keydown "Space" started))
  = (GL.next_buffer (Main.gl started) + 36)%nat.
Proof.
  assert (H : In "Space"%string Main.movement_codes)
    by (unfold Main.movement_codes; simpl; auto 10).
  split; [exact H|].
  destruct (movement_key_redraws_twice "Space" started H) as [_ [_ H3]].
  exact H3.
Defined.

Lemma key_case_other (code : string) (w : Main.t) :
  ~ In code Main.movement_codes ->
  Main.gl (Main.key_case code w) = Main.gl w /\
  Main.projectionMatrix (Main.key_case code w) = Main.projectionMatrix w.
Proof.
  unfold Main.movement_codes; simpl. intros H.
  unfold Main.key_case.
  repeat match goal with
  | |- context [String.eqb code ?s] =>
      destruct (String.eqb_spec code s) as [->|_];
      [first [exfalso; apply H; tauto | split; reflexivity]|]
  end.
  split; reflexivity.
Qed.

(** X5.  Any other key, a yaw key or one without a case, redraws the
    scene exactly once, with the view matrix of the camera as the
    [switch] left it, and uses 18 fresh buffers. *)
Theorem other_key_redraws_once (code : string) (w : Main.t) :
  ~ In code Main.movement_codes ->
  GL.calls (Main.gl (Main.keydown code w))
  = GL.calls (Main.gl w)
      ++ Scene.emitted Scene.map
           (Matrix4.setLookAt (Main.eye (Main.keydown code w))
              (Main.at_ (Main.keydown code w)) (Main.up (Main.keydown code w)))
           (Main.projectionMatrix w) (GL.next_buffer (Main.gl w)) /\
  GL.next_buffer (Main.gl (Main.keydown code w))
  = (GL.next_buffer (Main.gl w) + 18)%nat.
Proof.
  intros Hc. destruct (key_case_other code w Hc) as [Hg Hp].
  unfold Main.keydown at 1 5.
  destruct (gl_drawScene (Main.updateViewMatrix (Main.key_case code w)))
    as [-> ->].
  change (Main.gl (Main.updateViewMatrix (Main.key_case code w)))
    with (Main.gl (Main.key_case code w)).
  change (Main.projectionMatrix (Main.updateViewMatrix (Main.key_case code w)))
    with (Main.projectionMatrix (Main.key_case code w)).
  rewrite Hg, Hp. split; reflexivity.
Qed.

Lemma other_key_redraws_once_witness :
  ~ In "KeyQ"%string Main.movement_codes /\
  GL.next_buffer (Main.gl (Main.keydown "KeyQ" started))
  = (GL.next_buffer (Main.gl started) + 18)%nat.
Proof.
  assert (H : ~ In "KeyQ"%string Main.movement_codes).
  { unfold Main.movement_codes; simpl.
    intros [H | [H | [H | [H | [H | [H | []]]]]]]; discriminate H. }
  split; [exact H|].
  destruct (other_key_redraws_once "KeyQ" started H) as [_ H2]. exact H2.
Defined.

Lemma replay_app (l1 l2 : list GL.Call) (m : GL.Machine) :
  GL.replay m (l1 ++ l2) = GL.replay m l1 ++ GL.replay (GL.run m l1) l2.
Proof.
  revert m; induction l1 as [|c l1 IH]; intros m; [reflexivity|].
  cbn [app GL.replay GL.run fold_left].
  destruct (GL.step m c) as [m' [d|]]; cbn [fst];
    fold (GL.run m' l1); rewrite IH; reflexivity.
Qed.

(** X6.  What one [drawScene] draws depends neither on the state an
    earlier log left the pipeline in nor on the buffer handles it gets:
    two redraws in a row, with the same grid and matrices, draw the same
    sequence twice. *)
Theorem redraw_idempotent (g : Scene.Grid) (v p : Matrix4.t)
  (b b' : GL.Buffer) (m m' : GL.Machine) :
  GL.replay m (Scene.emitted g v p b)
  = GL.replay m' (Scene.emitted g v p b') /\
  GL.replay m (Scene.emitted g v p b ++ Scene.emitted g v p b')
  = GL.replay m (Scene.emitted g v p b)
      ++ GL.replay m (Scene.emitted g v p b).
Proof.
  split.
  - now rewrite !replay_emitted.
  - rewrite replay_app. now rewrite !replay_emitted.
Qed.

Lemma emitted_eq (g : Scene.Grid) (v p : Matrix4.t) (b : GL.Buffer) :
  Scene.emitted g v p b
  = scene_header v p
      ++ cube_blocks b
           (sky_args :: ground_args :: List.map stacked_args (loop_cells g)).
Proof.
  unfold Scene.emitted, GL.exec. rewrite drawScene_log. reflexivity.
Qed.

Lemma created_cube_blocks (l : list CubeArgs) (b : GL.Buffer) :
  created (cube_blocks b l) = seq b (length l).
Proof.
  revert b; induction l as [|[[m w] c] l IH]; intros b; [reflexivity|].
  cbn [cube_blocks]. unfold created in *. rewrite flat_map_app, IH.
  reflexivity.
Qed.

(** X7.  Every [drawScene] creates one fresh buffer per cube instance it
    draws, sky and ground included: the handles created are consecutive,
    none is used twice, and their number is the number of draws. *)
Theorem one_buffer_per_draw (g : Scene.Grid) (v p : Matrix4.t)
  (b : GL.Buffer) (m : GL.Machine) :
  created (Scene.emitted g v p b)
  = seq b (length (GL.replay m (Scene.emitted g v p b))) /\
  NoDup (created (Scene.emitted g v p b)) /\
  (forall ctx,
     GL.next_buffer (GL.exec (Scene.drawScene g v p) ctx)
     = (GL.next_buffer ctx
        + length (GL.replay m (Scene.emitted g v p (GL.next_buffer ctx))))%nat).
Proof.
  assert (Hlen : forall b0, length (GL.replay m (Scene.emitted g v p b0))
                 = (2 + length (loop_cells g))%nat).
  { intros b0. rewrite replay_emitted. cbn [List.map length].
    now rewrite !length_map. }
  assert (Hc : created (Scene.emitted g v p b)
               = seq b (length (GL.replay m (Scene.emitted g v p b)))).
  { rewrite Hlen, emitted_eq. unfold created at 1.
    rewrite flat_map_app. cbn [scene_header flat_map app].
    fold (created (cube_blocks b
            (sky_args :: ground_args :: List.map stacked_args (loop_cells g)))).
    rewrite created_cube_blocks. cbn [length]. now rewrite length_map. }
  split; [exact Hc|]. split.
  - rewrite Hc. apply seq_NoDup.
  - intros ctx. now rewrite next_buffer_drawScene, Hlen.
Qed.

(** *** Grids that are not rectangular *)

Lemma In_loop_cells (g : Scene.Grid) (i j h : nat) :
  In (i, j, h) (loop_cells g) <->
  (j < length (nth 0 g []))%nat /\
  exists row height,
    nth_error g i = Some row /\ nth_error row j = Some height /\
    (h < height)%nat.
Proof.
  unfold loop_cells. rewrite in_flat_map. split.
  - intros [i' [Hi H]]. apply in_seq in Hi.
    apply in_flat_map in H. destruct H as [j' [Hj H]]. apply in_seq in Hj.
    destruct (nth_error (nth i' g []) j') as [height|] eqn:E; [|destruct H].
    apply in_map_iff in H. destruct H as [h' [Heq Hh]]. apply in_seq in Hh.
    injection Heq as -> -> ->.
    split; [lia|]. exists (nth i g []), height.
    split; [apply nth_error_nth'; lia | split; [exact E | lia]].
  - intros [Hj [row [height [Hi [Hrow Hh]]]]].
    assert (Hlt : (i < length g)%nat)
      by (apply nth_error_Some; rewrite Hi; discriminate).
    exists i. split; [apply in_seq; lia|].
    apply in_flat_map. exists j. split; [apply in_seq; lia|].
    rewrite (nth_error_nth g i [] Hi), Hrow.
    apply in_map_iff. exists h. split; [reflexivity | apply in_seq; lia].
Qed.

Lemma sorted_flat_map_seq {A : Type} (lt : A -> A -> Prop)
  (f : nat -> list A) (n from : nat) :
  (forall i, StronglySorted lt (f i)) ->
  (forall i i' a a', (i < i')%nat -> In a (f i) -> In a' (f i') -> lt a a') ->
  StronglySorted lt (flat_map f (seq from n)).
Proof.
  intros Hs Hlt. revert from; induction n as [|n IH]; intros from; simpl.
  - constructor.
  - apply StronglySorted_app; [apply Hs | apply IH |].
    intros a a' Ha Ha'. apply in_flat_map in Ha'.
    destruct Ha' as [i' [Hi' Ha']]. apply in_seq in Hi'.
    apply (Hlt from i'); [lia | assumption | assumption].
Qed.

Lemma sorted_loop_cells (g : Scene.Grid) :
  StronglySorted Scene.cell_lt (loop_cells g).
Proof.
  unfold loop_cells. apply sorted_flat_map_seq.
  - intros i. apply sorted_flat_map_seq.
    + intros j. destruct (nth_error (nth i g []) j); [apply sorted_stack|].
      constructor.
    + intros j j' a a' Hjj Ha Ha'.
      destruct (nth_error (nth i g []) j); [|destruct Ha].
      destruct (nth_error (nth i g []) j'); [|destruct Ha'].
      apply In_stack in Ha. destruct Ha as [h [-> _]].
      apply In_stack in Ha'. destruct Ha' as [h' [-> _]].
      simpl. right; split; [reflexivity|]. left; exact Hjj.
  - intros i i' a a' Hii Ha Ha'.
    apply in_flat_map in Ha. destruct Ha as [j [_ Ha]].
    apply in_flat_map in Ha'. destruct Ha' as [j' [_ Ha']].
    destruct (nth_error (nth i g []) j); [|destruct Ha].
    destruct (nth_error (nth i' g []) j'); [|destruct Ha'].
    apply In_stack in Ha. destruct Ha as [h [-> _]].
    apply In_stack in Ha'. destruct Ha' as [h' [-> _]].
    simpl. left; exact Hii.
Qed.

(** X8.  On any grid, rectangular or not, [drawScene] draws sky, ground
    and then, in increasing (row, column, level) order, the cube at level
    [h] of cell [(i, j)] exactly when that cell exists, [h] is below its
    height and [j] is below the length of the first row: cells beyond the
    first row's length are skipped, and when the first row is empty (or
    there is no row) only sky and ground are drawn. *)
Theorem drawScene_on_any_grid (g : Scene.Grid) (v p : Matrix4.t)
  (b : GL.Buffer) (m : GL.Machine) :
  GL.replay m (Scene.emitted g v p b)
  = Scene.sky_draw :: Scene.ground_draw
      :: List.map Scene.stacked_draw (loop_cells g) /\
  StronglySorted Scene.cell_lt (loop_cells g) /\
  (forall i j h,
     In (i, j, h) (loop_cells g) <->
     (j < length (nth 0 g []))%nat /\
     exists row height,
       nth_error g i = Some row /\ nth_error row j = Some height /\
       (h < height)%nat) /\
  (nth 0 g [] = [] ->
   GL.replay m (Scene.emitted g v p b) = [Scene.sky_draw; Scene.ground_draw]).
Proof.
  split; [apply replay_emitted_loop|].
  split; [apply sorted_loop_cells|].
  split; [intros i j h; apply In_loop_cells|].
  intros H0. rewrite replay_emitted_loop.
  assert (Hnil : loop_cells g = []).
  { destruct (loop_cells g) as [|[[i j] h] l] eqn:E; [reflexivity|].
    assert (Hin : In (i, j, h) (loop_cells g)) by (rewrite E; left; reflexivity).
    apply In_loop_cells in Hin. rewrite H0 in Hin. simpl in Hin. lia. }
  now rewrite Hnil.
Qed.

Lemma drawScene_on_any_grid_witness :
  GL.replay GL.power_on
    (Scene.emitted [[1]; [2; 3]]%nat Matrix4.identity Matrix4.identity 0%nat)
  = [ Scene.sky_draw; Scene.ground_draw;
      Scene.stacked_draw (0, 0, 0)%nat;
      Scene.stacked_draw (1, 0, 0)%nat;
      Scene.stacked_draw (1, 0, 1)%nat ].
Proof.
  destruct (drawScene_on_any_grid [[1]; [2; 3]]%nat Matrix4.identity
              Matrix4.identity 0%nat GL.power_on) as [H _].
  exact H.
Defined.

(** *** Moving *)

Lemma key_case_KeyW (w : Main.t) :
  Main.key_case "KeyW" w = Main.move (Main.forward w) w.
Proof. reflexivity. Qed.

Lemma key_case_KeyS (w : Main.t) :
  Main.key_case "KeyS" w = Main.move (Vector3.mul (Main.forward w) (-2)) w.
Proof. reflexivity. Qed.

Lemma key_case_KeyA (w : Main.t) :
  Main.key_case "KeyA" w
  = Main.move (Vector3.mul (Main.strafe_right w) (-1)) w.
Proof. reflexivity. Qed.

Lemma key_case_Space (w : Main.t) :
  Main.key_case "Space" w = Main.move (Main.up w) w.
Proof. reflexivity. Qed.

Lemma key_case_ShiftLeft (w : Main.t) :
  Main.key_case "ShiftLeft" w = Main.move (Vector3.mul (Main.up w) (-1)) w.
Proof. reflexivity. Qed.

(** The camera after a key that ends in [move d]. *)
Lemma keydown_move (code : string) (d : Vector3.t) (w : Main.t) :
  Main.key_case code w = Main.move d w ->
  Main.eye (Main.keydown code w)
  = Vector3.add (Main.eye w) (Vector3.mul (Vector3.normalize d) 0.3) /\
  Main.at_ (Main.keydown code w)
  = Vector3.add (Main.at_ w) (Vector3.mul (Vector3.normalize d) 0.3) /\
  Main.forward (Main.keydown code w) = Main.forward w /\
  Main.up (Main.keydown code w) = Main.up w.
Proof.
  intros H. destruct (camera_keydown code w) as [-> [-> [-> ->]]].
  rewrite H. destruct (camera_move d w) as [-> [-> [-> ->]]]. auto.
Qed.

Lemma magnitude_mul_abs (v : Vector3.t) (k : R) :
  Vector3.magnitude (Vector3.mul v k) = Rabs k * Vector3.magnitude v.
Proof.
  unfold Vector3.magnitude.
  replace (Vector3.dot (Vector3.mul v k) (Vector3.mul v k))
    with (Rsqr k * Vector3.dot v v)
    by (unfold Vector3.dot, Vector3.mul, Rsqr; simpl; ring).
  rewrite sqrt_mult; [| apply Rle_0_sqr | apply dot_self_nonneg].
  now rewrite sqrt_Rsqr_abs.
Qed.

(** Scaling by a negative number turns the normalized vector round. *)
Lemma normalize_mul_neg (v : Vector3.t) (k : R) :
  k < 0 ->
  Vector3.normalize (Vector3.mul v k) = Vector3.mul (Vector3.normalize v) (-1).
Proof.
  intros Hk. unfold Vector3.normalize.
  rewrite magnitude_mul_abs, (Rabs_left k Hk).
  destruct (Req_dec (Vector3.magnitude v) 0) as [H0 | Hn].
  - apply magnitude_zero_iff in H0. subst v.
    unfold Vector3.mul, Vector3.zero; simpl. f_equal; ring.
  - destruct v as [a b c]; unfold Vector3.mul; simpl.
    f_equal; field; split; lra.
Qed.

(** *** The camera never pitches *)

Lemma sub_add_self (e f : Vector3.t) : Vector3.sub (Vector3.add e f) e = f.
Proof.
  destruct e, f; unfold Vector3.sub, Vector3.add; simpl. f_equal; ring.
Qed.

Lemma nonzero_of_magnitude (v : Vector3.t) :
  Vector3.magnitude v <> 0 -> v <> Vector3.zero.
Proof. intros H Hz. apply H. now apply magnitude_zero_iff. Qed.

Lemma look_ok_startup (aspect : R) (g : GL.Context) :
  look_ok (Main.startup aspect g).
Proof.
  unfold look_ok, Main.startup;
    cbn [Main.eye Main.at_ Main.drawScene Main.set_gl
         Main.updateProjectionMatrix Main.updateViewMatrix
         Main.set_projectionMatrix Main.set_viewMatrix].
  unfold Vector3.sub, Vector3.zero; simpl. split; [ring|].
  intros H. injection H as _ _ H. lra.
Qed.

Lemma look_ok_key_case (code : string) (w : Main.t) :
  camera_ok w -> look_ok w -> look_ok (Main.key_case code w).
Proof.
  intros [Hup [Hm Hy]] Hl. unfold Main.key_case.
  assert (Hmove : forall d, look_ok (Main.move d w)).
  { intros d. unfold look_ok.
    destruct (camera_move d w) as [-> [_ [_ ->]]].
    rewrite sub_add_add. exact Hl. }
  assert (Hyaw : forall angle,
            look_ok
              (Main.set_at
                 (Vector3.add (Main.eye w)
                    (Vector3.normalize
                       (Matrix4.multiplyVector3
                          (Matrix4.setRotate angle (Vector3.x (Main.up w))
                             (Vector3.y (Main.up w)) (Vector3.z (Main.up w)))
                          (Main.forward w))))
                 (Main.set_forward
                    (Vector3.normalize
                       (Matrix4.multiplyVector3
                          (Matrix4.setRotate angle (Vector3.x (Main.up w))
                             (Vector3.y (Main.up w)) (Vector3.z (Main.up w)))
                          (Main.forward w))) w))).
  { intros angle. unfold look_ok.
    cbn [Main.eye Main.at_ Main.set_at Main.set_forward].
    rewrite sub_add_self, Hup;
      cbn [Main.world_up Vector3.x Vector3.y Vector3.z].
    rewrite setRotate_world_up.
    destruct (yaw_step_ok (PI * angle / 180) _ Hm Hy) as [-> [H1 H0]].
    split; [exact H0|]. apply nonzero_of_magnitude. rewrite H1. lra. }
  repeat match goal with
  | |- context [String.eqb code ?s] => destruct (String.eqb code s)
  end;
  first [apply Hmove | apply Hyaw | exact Hl].
Qed.

Lemma reachable_look_ok (w : Main.t) : Main.reachable w -> look_ok w.
Proof.
  induction 1 as [aspect g | e w Hw IH].
  - apply look_ok_startup.
  - pose proof (reachable_camera_ok w Hw) as Hok.
    destruct e as [code | locked mx].
    + exact (look_ok_key_case code w Hok IH).
    + destruct locked; exact IH.
Qed.

(** X13.  The camera never pitches: in every reachable state [up] is the
    world [+Y] axis, and [forward] and the look vector [at - eye] are
    horizontal. *)
Theorem camera_never_pitches (w : Main.t) :
  Main.reachable w ->
  Main.up w = Vector3.mk 0 1 0 /\
  Vector3.y (Main.forward w) = 0 /\
  Vector3.y (Main.at_ w) = Vector3.y (Main.eye w).
Proof.
  intros Hw. destruct (reachable_camera_ok w Hw) as [Hup [_ Hy]].
  destruct (reachable_look_ok w Hw) as [Hl _].
  split; [exact Hup|]. split; [exact Hy|].
  unfold Vector3.sub in Hl; simpl in Hl. lra.
Qed.

Lemma camera_never_pitches_witness :
  Main.reachable (Main.mousemove true 100 (Main.keydown "KeyQ" started)) /\
  Vector3.y (Main.forward (Main.mousemove true 100 (Main.keydown "KeyQ" started)))
  = 0.
Proof.
  assert (H : Main.reachable
                (Main.mousemove true 100 (Main.keydown "KeyQ" started))).
  { apply (Main.reach_handle (Main.MouseMove true 100)).
    apply (Main.reach_handle (Main.KeyDown "KeyQ")), Main.reach_startup. }
  split; [exact H|].
  destruct (camera_never_pitches _ H) as [_ [H2 _]]. exact H2.
Defined.

Lemma y_normalize (v : Vector3.t) :
  Vector3.y v = 0 -> Vector3.y (Vector3.normalize v) = 0.
Proof.
  intros H. unfold Vector3.normalize, Vector3.mul; simpl. rewrite H. ring.
Qed.

Lemma magnitude_010 : Vector3.magnitude (Vector3.mk 0 1 0) = 1.
Proof.
  unfold Vector3.magnitude, Vector3.dot; simpl.
  replace (0 * 0 + 1 * 1 + 0 * 0) with 1 by ring. apply sqrt_1.
Qed.

(** The strafe direction in a state that is as the handlers keep it. *)
Lemma strafe_right_shape (w : Main.t) :
  camera_ok w -> look_ok w ->
  Vector3.magnitude (Main.strafe_right w) = 1 /\
  Vector3.y (Main.strafe_right w) = 0.
Proof.
  intros [Hup _] [Hy Hn].
  pose proof (magnitude_normalize _ Hn) as Hv.
  pose proof (y_normalize _ Hy) as Hvy.
  unfold Main.strafe_right. rewrite Hup.
  set (v := Vector3.normalize (Vector3.sub (Main.at_ w) (Main.eye w))) in *.
  clearbody v. destruct v as [a b c]. simpl in Hvy. subst b.
  assert (Hc : Vector3.magnitude
                 (Vector3.cross (Vector3.mk a 0 c) Main.world_up) = 1).
  { unfold Vector3.magnitude in *.
    replace (Vector3.dot (Vector3.cross (Vector3.mk a 0 c) Main.world_up)
                         (Vector3.cross (Vector3.mk a 0 c) Main.world_up))
      with (Vector3.dot (Vector3.mk a 0 c) (Vector3.mk a 0 c)); [exact Hv|].
    unfold Vector3.dot, Vector3.cross, Main.world_up; simpl. ring. }
  rewrite (normalize_unit _ Hc). split; [exact Hc|].
  unfold Vector3.cross, Main.world_up; simpl. ring.
Qed.



Lemma y_step (e d : Vector3.t) :
  Vector3.y d = 0 ->
  Vector3.y (Vector3.add e (Vector3.mul (Vector3.normalize d) 0.3))
  = Vector3.y e.
Proof.
  intros H. pose proof (y_normalize d H) as Hn.
  destruct (Vector3.normalize d) as [a b c]. simpl in Hn. subst b.
  unfold Vector3.add, Vector3.mul; simpl. ring.
Qed.

Lemma y_mul (v : Vector3.t) (k : R) :
  Vector3.y v = 0 -> Vector3.y (Vector3.mul v k) = 0.
Proof. intros H. unfold Vector3.mul; simpl. rewrite H. ring. Qed.

Lemma step_up (e : Vector3.t) :
  Vector3.add e (Vector3.mul (Vector3.normalize (Vector3.mk 0 1 0)) 0.3)
  = Vector3.add e (Vector3.mk 0 0.3 0).
Proof.
  rewrite (normalize_unit _ magnitude_010).
  unfold Vector3.add, Vector3.mul; simpl. f_equal; ring.
Qed.

Lemma step_down (e : Vector3.t) :
  Vector3.add e
    (Vector3.mul
       (Vector3.normalize (Vector3.mul (Vector3.mk 0 1 0) (-1))) 0.3)
  = Vector3.add e (Vector3.mk 0 (-0.3) 0).
Proof.
  rewrite normalize_mul_neg by lra.
  rewrite (normalize_unit _ magnitude_010).
  unfold Vector3.add, Vector3.mul; simpl. f_equal; lra.
Qed.

(** X16.  In every reachable state the four walking keys ([KeyW], [KeyS],
    [KeyA], [KeyD]) leave the height of [eye] and of [at] as it is, and
    [Space] and [ShiftLeft] move both straight up and straight down by
    [0.3]. *)
Theorem walking_keeps_height (w : Main.t) :
  Main.reachable w ->
  (forall code, In code walk_codes ->
     Vector3.y (Main.eye (Main.keydown code w)) = Vector3.y (Main.eye w) /\
     Vector3.y (Main.at_ (Main.keydown code w)) = Vector3.y (Main.at_ w)) /\
  (Main.eye (Main.keydown "Space" w)
   = Vector3.add (Main.eye w) (Vector3.mk 0 0.3 0) /\
   Main.at_ (Main.keydown "Space" w)
   = Vector3.add (Main.at_ w) (Vector3.mk 0 0.3 0)) /\
  (Main.eye (Main.keydown "ShiftLeft" w)
   = Vector3.add (Main.eye w) (Vector3.mk 0 (-0.3) 0) /\
   Main.at_ (Main.keydown "ShiftLeft" w)
   = Vector3.add (Main.at_ w) (Vector3.mk 0 (-0.3) 0)).
Proof.
  intros Hw.
  pose proof (reachable_camera_ok w Hw) as Hok.
  destruct (strafe_right_shape w Hok (reachable_look_ok w Hw)) as [_ Hr].
  destruct Hok as [Hup [_ Hf]].
  split; [|split].
  - intros code Hc. unfold walk_codes in Hc. cbn [In] in Hc.
    destruct Hc as [<- | [<- | [<- | [<- | []]]]].
    + destruct (keydown_move _ _ w (key_case_KeyW w)) as [-> [-> _]].
      split; now apply y_step.
    + destruct (keydown_move _ _ w (key_case_KeyS w)) as [-> [-> _]].
      split; now apply y_step, y_mul.
    + destruct (keydown_move _ _ w (key_case_KeyA w)) as [-> [-> _]].
      split; now apply y_step, y_mul.
    + destruct (keydown_move _ _ w (key_case_KeyD w)) as [-> [-> _]].
      split; now apply y_step.
  - destruct (keydown_move _ _ w (key_case_Space w)) as [-> [-> _]].
    rewrite Hup. split; apply step_up.
  - destruct (keydown_move _ _ w (key_case_ShiftLeft w)) as [-> [-> _]].
    rewrite Hup. split; apply step_down.
Qed.

Lemma walking_keeps_height_witness :
  Main.reachable started /\
  Main.eye (Main.keydown "Space" started)
  = Vector3.add (Main.eye started) (Vector3.mk 0 0.3 0).
Proof.
  assert (H : Main.reachable started) by apply Main.reach_startup.
  split; [exact H|].
  destruct (walking_keeps_height started H) as [_ [[H1 _] _]]. exact H1.
Defined.

(** *** Buffers *)

Lemma next_buffer_keydown (code : string) (w : Main.t) :
  GL.next_buffer (Main.gl (Main.keydown code w))
  = (GL.next_buffer (Main.gl w) + buffers_per_key code)%nat.
Proof.
  unfold buffers_per_key.
  destruct (in_dec string_dec code Main.movement_codes) as [Hc | Hc].
  - destruct (key_case_movement code w Hc) as [d Hd].
    unfold Main.keydown. rewrite Hd.
    now destruct (gl_move_redraw d w) as [_ [_ ->]].
  - destruct (key_case_other code w Hc) as [Hg _].
    unfold Main.keydown.
    destruct (gl_drawScene (Main.updateViewMatrix (Main.key_case code w)))
      as [_ ->].
    change (Main.gl (Main.updateViewMatrix (Main.key_case code w)))
      with (Main.gl (Main.key_case code w)).
    now rewrite Hg.
Qed.

(** X18.  Buffers are created and never reused: every keydown creates 36
    new buffers if it is a movement key and 18 otherwise, so [n] presses
    of a key leave the context [n] times that many handles further. *)
Theorem buffers_grow_with_every_key (n : nat) (code : string) (w : Main.t) :
  GL.next_buffer (Main.gl (presses n code w))
  = (GL.next_buffer (Main.gl w) + n * buffers_per_key code)%nat /\
  (18 <= buffers_per_key code)%nat.
Proof.
  split.
  - induction n as [|n IH]; [simpl; lia|].
    change (presses (S n) code w)
      with (Main.keydown code (presses n code w)).
    rewrite next_buffer_keydown, IH. lia.
  - unfold buffers_per_key.
    destruct (in_dec string_dec code Main.movement_codes); lia.
Qed.

Lemma draw_first_of_two_run (m1 m2 : Matrix4.t) (w1 w2 : R) (c1 c2 : list R)
  (b : GL.Buffer) :
  draw_first_of_two (m1, w1, c1) (m2, w2, c2) (GL.mkContext b [])
  = ((Cube.mk m1 w1 c1 Cube.vertex_data b,
      Cube.mk m2 w2 c2 Cube.vertex_data (S b)),
     GL.mkContext (S (S b))
       [ GL.createBuffer b;
         GL.bindBuffer b;
         GL.bufferData Cube.vertex_data;
         GL.vertexAttribPointer GL.a_Position 3 false 20 0;
         GL.enableVertexAttribArray GL.a_Position;
         GL.vertexAttribPointer GL.a_UV 2 false 20 12;
         GL.enableVertexAttribArray GL.a_UV;
         GL.createBuffer (S b);
         GL.bindBuffer (S b);
         GL.bufferData Cube.vertex_data;
         GL.vertexAttribPointer GL.a_Position 3 false 20 0;
         GL.enableVertexAttribArray GL.a_Position;
         GL.vertexAttribPointer GL.a_UV 2 false 20 12;
         GL.enableVertexAttribArray GL.a_UV;
         GL.uniformMatrix4fv GL.u_ModelMatrix false m1;
         GL.uniform1f GL.u_texColorWeight w1;
         GL.uniform4fv GL.u_baseColor c1;
         GL.drawArrays GL.TRIANGLE_STRIP 0 4 ]).
Proof. reflexivity. Qed.

(** X19.  [Cube.draw] binds nothing: it draws from whatever the attribute
    pointers were last set to.  When two cubes are constructed before the
    first is drawn, the two have different buffers, the draw carries the
    first cube's matrix, weight and colour, and the position pointer in
    force is on the second cube's buffer. *)
Theorem draw_uses_last_constructed_buffer (a1 a2 : CubeArgs)
  (b : GL.Buffer) (m : GL.Machine) :
  let r := draw_first_of_two a1 a2 (GL.mkContext b []) in
  let cube1 := fst (fst r) in
  let cube2 := snd (fst r) in
  let log := GL.calls (snd r) in
  Cube.vertexBuffer cube1 = b /\
  Cube.vertexBuffer cube2 = S b /\
  GL.position (GL.run m log)
  = Some (GL.mkPointer (Cube.vertexBuffer cube2) 3 20 0) /\
  GL.replay m log = [draw_of a1].
Proof.
  destruct a1 as [[m1 w1] c1], a2 as [[m2 w2] c2].
  destruct m as [ab st pos uvp mm tw bc].
  cbv zeta. rewrite draw_first_of_two_run.
  cbn [fst snd GL.calls Cube.vertexBuffer].
  split; [reflexivity|]. split; [reflexivity|]. split; [reflexivity|].
  unfold draw_of, Scene.instance, Scene.front_face, Scene.front_uv,
    Cube.vertex_data.
  cbn -[Q2R Nat.div]. rewrite Nat.eqb_refl. reflexivity.
Qed.

(* ================================================================= *)
(** ** The handlers in any arithmetic *)

(** *** At the real numbers they are the handlers of [Main] *)

Lemma Q2R_integer (n : Z) : Q2R (n # 1) = IZR n.
Proof. unfold Q2R; simpl. rewrite Rinv_1. ring. Qed.

Lemma vec_of_eta (v : Vec.t real_numbers) :
  vec_of (Vector3.mk (Vec.x v) (Vec.y v) (Vec.z v)) = v.
Proof. destruct v; reflexivity. Qed.

Lemma vec_of_normalize (a : Vector3.t) :
  Vec.normalize real_numbers (vec_of a) = vec_of (Vector3.normalize a).
Proof.
  unfold Vec.normalize, Vector3.normalize.
  change (Vec.magnitude real_numbers (vec_of a)) with (Vector3.magnitude a).
  change (Num.of_Q real_numbers 1) with (Q2R (1 # 1)).
  rewrite Q2R_integer.
  change (Num.div real_numbers 1 (Vector3.magnitude a))
    with (1 / Vector3.magnitude a).
  replace (1 / Vector3.magnitude a) with (/ Vector3.magnitude a)
    by (unfold Rdiv; ring).
  reflexivity.
Qed.

Lemma vec_of_moveVec (d : Vector3.t) :
  Cam.moveVec real_numbers (vec_of d)
  = vec_of (Vector3.mul (Vector3.normalize d) 0.3).
Proof. unfold Cam.moveVec. rewrite vec_of_normalize. reflexivity. Qed.

Lemma vec_of_scale (v : Vector3.t) (n : Z) :
  Vec.mul real_numbers (vec_of v) (Num.of_Q real_numbers (n # 1))
  = vec_of (Vector3.mul v (IZR n)).
Proof.
  change (Num.of_Q real_numbers (n # 1)) with (Q2R (n # 1)).
  rewrite Q2R_integer. reflexivity.
Qed.

Lemma same_camera_move (d : Vector3.t) (w : Main.t) (c : Cam.t real_numbers) :
  same_camera w c ->
  same_camera (Main.move d w) (Cam.move real_numbers (vec_of d) c).
Proof.
  intros [He [Hf [Hu Ha]]].
  unfold same_camera, Cam.move;
    cbn [Cam.eye Cam.forward Cam.up Cam.at_ Cam.drawScene
         Cam.updateViewMatrix].
  destruct (camera_move d w) as [-> [-> [-> ->]]].
  rewrite vec_of_moveVec, He, Hf, Hu, Ha. repeat split.
Qed.

Lemma same_camera_strafe_right (w : Main.t) (c : Cam.t real_numbers) :
  same_camera w c ->
  Cam.strafe_right real_numbers c = vec_of (Main.strafe_right w).
Proof.
  intros [He [_ [Hu Ha]]]. unfold Cam.strafe_right, Main.strafe_right.
  rewrite He, Hu, Ha.
  change (Vec.sub real_numbers (vec_of (Main.at_ w)) (vec_of (Main.eye w)))
    with (vec_of (Vector3.sub (Main.at_ w) (Main.eye w))).
  rewrite vec_of_normalize.
  change (Vec.cross real_numbers
            (vec_of (Vector3.normalize
                       (Vector3.sub (Main.at_ w) (Main.eye w))))
            (vec_of (Main.up w)))
    with (vec_of (Vector3.cross
                    (Vector3.normalize
                       (Vector3.sub (Main.at_ w) (Main.eye w)))
                    (Main.up w))).
  apply vec_of_normalize.
Qed.

Lemma same_camera_yaw (n : Z) (w : Main.t) (c : Cam.t real_numbers) :
  same_camera w c ->
  let forward' :=
    Vector3.normalize
      (Matrix4.multiplyVector3
         (Matrix4.setRotate (IZR n) (Vector3.x (Main.up w))
            (Vector3.y (Main.up w)) (Vector3.z (Main.up w)))
         (Main.forward w)) in
  same_camera
    (Main.set_at (Vector3.add (Main.eye w) forward')
       (Main.set_forward forward' w))
    (Cam.yaw_case real_numbers real_rotate (Num.of_Q real_numbers (n # 1)) c).
Proof.
  intros [He [Hf [Hu Ha]]] forward'.
  unfold same_camera, Cam.yaw_case;
    cbn [Cam.eye Cam.forward Cam.up Cam.at_ Main.eye Main.forward Main.up
         Main.at_ Main.set_at Main.set_forward].
  change (Num.of_Q real_numbers (n # 1)) with (Q2R (n # 1)).
  rewrite Q2R_integer, He, Hf, Hu.
  assert (Hr : Vec.normalize real_numbers
                 (real_rotate (IZR n) (vec_of (Main.up w))
                              (vec_of (Main.forward w)))
               = vec_of forward').
  { unfold real_rotate, vec_of at 1 2; cbn [Vec.x Vec.y Vec.z].
    destruct (Main.forward w) as [fx fy fz]; cbn [Vector3.x Vector3.y Vector3.z].
    apply vec_of_normalize. }
  rewrite Hr. repeat split.
Qed.

(** [keydown] of [Main] and [keydown] of the generic handlers at the real
    numbers keep the cameras equal. *)
Lemma same_camera_keydown (code : string) (w : Main.t)
  (c : Cam.t real_numbers) :
  same_camera w c ->
  same_camera (Main.keydown code w)
              (Cam.keydown real_numbers real_rotate code c).
Proof.
  intros H.
  assert (Hk : same_camera (Main.key_case code w)
                 (Cam.key_case real_numbers real_rotate code c)).
  { pose proof (same_camera_strafe_right w c H) as Hr.
    destruct H as [He [Hf [Hu Ha]]].
    assert (H : same_camera w c) by (repeat split; assumption).
    unfold Main.key_case, Cam.key_case.
    repeat match goal with
    | |- context [String.eqb code ?s] => destruct (String.eqb code s)
    end.
    - rewrite Hf. now apply same_camera_move.
    - rewrite Hf, (vec_of_scale _ (-2)). now apply same_camera_move.
    - cbv zeta. rewrite Hr, (vec_of_scale _ (-1)). now apply same_camera_move.
    - cbv zeta. rewrite Hr. now apply same_camera_move.
    - exact (same_camera_yaw (-5) w c H).
    - exact (same_camera_yaw 5 w c H).
    - rewrite Hu. now apply same_camera_move.
    - rewrite Hu, (vec_of_scale _ (-1)). now apply same_camera_move.
    - exact H. }
  exact Hk.
Qed.

Lemma same_camera_mousemove (locked : bool) (mx : R) (w : Main.t)
  (c : Cam.t real_numbers) :
  same_camera w c ->
  same_camera (Main.mousemove locked mx w)
              (Cam.mousemove real_numbers real_rotate locked mx c).
Proof.
  intros [He [Hf [Hu Ha]]]. destruct locked; [|repeat split; assumption].
  unfold same_camera, Cam.mousemove, Main.mousemove;
    cbn [Cam.eye Cam.forward Cam.up Cam.at_ Cam.drawScene
         Cam.updateViewMatrix Main.eye Main.forward Main.up Main.at_
         Main.set_forward Main.drawScene Main.set_gl Main.updateViewMatrix
         Main.set_viewMatrix].
  change (Num.of_Q real_numbers (180 # 1)) with (Q2R (180 # 1)).
  rewrite Q2R_integer, He, Hf, Hu, Ha.
  repeat split.
  unfold real_rotate, vec_of at 1 2; cbn [Vec.x Vec.y Vec.z].
  destruct (Main.forward w) as [fx fy fz]; cbn [Vector3.x Vector3.y Vector3.z].
  apply vec_of_normalize.
Qed.

Lemma same_camera_startup (aspect : R) (g : GL.Context) :
  same_camera (Main.startup aspect g) (Cam.startup real_numbers).
Proof.
  unfold same_camera, Cam.startup, Main.startup;
    cbn [Cam.eye Cam.forward Cam.up Cam.at_ Cam.drawScene
         Cam.updateViewMatrix Main.eye Main.forward Main.up Main.at_
         Main.drawScene Main.set_gl Main.updateProjectionMatrix
         Main.updateViewMatrix Main.set_projectionMatrix Main.set_viewMatrix].
  change (Num.of_Q real_numbers) with Q2R.
  rewrite !Q2R_integer.
  repeat split. apply (vec_of_normalize (Vector3.mk 0 0 1)).
Qed.

(** Every reachable state of [Main] has its camera in a reachable state
    of the generic handlers at the real numbers. *)
Lemma reachable_same_camera (w : Main.t) :
  Main.reachable w ->
  exists c, Cam.reachable real_numbers real_rotate c /\ same_camera w c.
Proof.
  induction 1 as [aspect g | e w Hw [c [Hc Hs]]].
  - exists (Cam.startup real_numbers).
    split; [constructor | apply same_camera_startup].
  - destruct e as [code | locked mx].
    + exists (Cam.keydown real_numbers real_rotate code c).
      split; [now constructor | now apply same_camera_keydown].
    + exists (Cam.mousemove real_numbers real_rotate locked mx c).
      split; [now constructor | now apply same_camera_mousemove].
Qed.

(** *** What the movement keys do in any arithmetic *)

Lemma cam_keydown (A : Num.t)
  (rotate : Num.num A -> Vec.t A -> Vec.t A -> Vec.t A)
  (code : string) (w : Cam.t A) :
  Cam.eye (Cam.keydown A rotate code w) = Cam.eye (Cam.key_case A rotate code w) /\
  Cam.forward (Cam.keydown A rotate code w)
  = Cam.forward (Cam.key_case A rotate code w) /\
  Cam.up (Cam.keydown A rotate code w) = Cam.up (Cam.key_case A rotate code w) /\
  Cam.at_ (Cam.keydown A rotate code w) = Cam.at_ (Cam.key_case A rotate code w).
Proof. repeat split. Qed.

Lemma cam_key_case_movement (A : Num.t)
  (rotate : Num.num A -> Vec.t A -> Vec.t A -> Vec.t A)
  (code : string) (w : Cam.t A) :
  In code Main.movement_codes ->
  exists dirVec, Cam.key_case A rotate code w = Cam.move A dirVec w.
Proof.
  unfold Main.movement_codes. cbn [In].
  intros [<- | [<- | [<- | [<- | [<- | [<- | []]]]]]].
  - now exists (Cam.forward w).
  - now exists (Vec.mul A (Cam.forward w) (Num.of_Q A (-2))).
  - now exists (Vec.mul A (Cam.strafe_right A w) (Num.of_Q A (-1))).
  - now exists (Cam.strafe_right A w).
  - now exists (Cam.up w).
  - now exists (Vec.mul A (Cam.up w) (Num.of_Q A (-1))).
Qed.

(** C4, amended.  In any arithmetic, real or floating point, every
    movement key ([KeyW], [KeyS], [KeyA], [KeyD], [Space], [ShiftLeft])
    adds one and the same vector, the normalized direction times [0.3],
    to [eye] and to [at], and leaves [forward] and [up] alone. *)
Theorem movement_adds_one_vector (A : Num.t)
  (rotate : Num.num A -> Vec.t A -> Vec.t A -> Vec.t A)
  (code : string) (w : Cam.t A) :
  In code Main.movement_codes ->
  exists dirVec,
    Cam.eye (Cam.keydown A rotate code w)
    = Vec.add A (Cam.eye w)
        (Vec.mul A (Vec.normalize A dirVec) (Num.of_Q A 0.3)) /\
    Cam.at_ (Cam.keydown A rotate code w)
    = Vec.add A (Cam.at_ w)
        (Vec.mul A (Vec.normalize A dirVec) (Num.of_Q A 0.3)) /\
    Cam.forward (Cam.keydown A rotate code w) = Cam.forward w /\
    Cam.up (Cam.keydown A rotate code w) = Cam.up w.
Proof.
  intros Hc. destruct (cam_key_case_movement A rotate code w Hc) as [d Hd].
  exists d. destruct (cam_keydown A rotate code w) as [-> [-> [-> ->]]].
  rewrite Hd. repeat split.
Qed.

Lemma movement_adds_one_vector_witness :
  In "KeyW"%string Main.movement_codes /\
  (exists dirVec,
     Cam.eye (Cam.keydown real_numbers real_rotate "KeyW"
                (Cam.startup real_numbers))
     = Vec.add real_numbers (Cam.eye (Cam.startup real_numbers))
         (Vec.mul real_numbers (Vec.normalize real_numbers dirVec)
            (Num.of_Q real_numbers 0.3))) /\
  (exists dirVec,
     Cam.eye (Cam.keydown binary64 (fun _ _ v => v) "KeyW"
                (Cam.startup binary64))
     = Vec.add binary64 (Cam.eye (Cam.startup binary64))
         (Vec.mul binary64 (Vec.normalize binary64 dirVec)
            (Num.of_Q binary64 0.3))).
Proof.
  assert (H : In "KeyW"%string Main.movement_codes)
    by (unfold Main.movement_codes; simpl; auto).
  split; [exact H|]. split.
  - destruct (movement_adds_one_vector real_numbers real_rotate "KeyW"
                (Cam.startup real_numbers) H) as [d [Hd _]].
    exists d. exact Hd.
  - destruct (movement_adds_one_vector binary64 (fun _ _ v => v) "KeyW"
                (Cam.startup binary64) H) as [d [Hd _]].
    exists d. exact Hd.
Defined.

(** In binary64, started and [KeyW] pressed three times, [at - eye] is
    [(0, 0, 5)]; the fourth [KeyW] makes its third component another
    number. *)
Lemma binary64_fourth_KeyW
  (rotate : PrimFloat.float -> Vec.t binary64 -> Vec.t binary64
            -> Vec.t binary64) :
  let w := Nat.iter 3 (Cam.keydown binary64 rotate "KeyW")
                    (Cam.startup binary64) in
  let w' := Cam.keydown binary64 rotate "KeyW" w in
  PrimFloat.eqb (Vec.z (Vec.sub binary64 (Cam.at_ w) (Cam.eye w)))
                (float_of_Q 5) = true /\
  PrimFloat.eqb (Vec.z (Vec.sub binary64 (Cam.at_ w') (Cam.eye w')))
                (float_of_Q 5) = false /\
  PrimFloat.ltb (float_of_Q 5)
                (Vec.z (Vec.sub binary64 (Cam.at_ w') (Cam.eye w'))) = true.
Proof. vm_compute. repeat split. Qed.

(** C4, counterexample.  In binary64 the claim fails: started, [KeyW]
    pressed three times, the fourth [KeyW] changes [at - eye], because the
    sums [eye + moveVec] and [at + moveVec] are rounded separately. *)
Lemma binary64_at_minus_eye_not_kept :
  ~ (forall (rotate : PrimFloat.float -> Vec.t binary64 -> Vec.t binary64
                      -> Vec.t binary64)
            (code : string) (w : Cam.t binary64),
       Cam.reachable binary64 rotate w ->
       In code Main.movement_codes ->
       Vec.sub binary64 (Cam.at_ (Cam.keydown binary64 rotate code w))
                        (Cam.eye (Cam.keydown binary64 rotate code w))
       = Vec.sub binary64 (Cam.at_ w) (Cam.eye w)).
Proof.
  intros H.
  pose (rotate := fun (_ : PrimFloat.float) (_ v : Vec.t binary64) => v).
  pose (w := Nat.iter 3 (Cam.keydown binary64 rotate "KeyW")
                      (Cam.startup binary64)).
  assert (Hw : Cam.reachable binary64 rotate w) by (repeat constructor).
  assert (Hc : In "KeyW"%string Main.movement_codes)
    by (unfold Main.movement_codes; simpl; auto).
  specialize (H rotate "KeyW"%string w Hw Hc).
  destruct (binary64_fourth_KeyW rotate) as [Hb [Ha _]].
  fold w in Hb, Ha. rewrite H, Hb in Ha. discriminate Ha.
Qed.



(** *** The look-at relation in any arithmetic *)

(** In binary64 [move] does not keep [at = eye + forward]: with
    [eye = (0, 2, -1)], [forward = (0, 0, 1)] and [at = eye + forward],
    after [move(forward)] the sum [eye + forward] is not [at]. *)
Lemma binary64_move_breaks_at_eq_eye_plus_forward :
  let w := Cam.mk binary64
             (Vec.mk binary64 (float_of_Q 0) (float_of_Q 2) (float_of_Q (-1)))
             (Vec.mk binary64 (float_of_Q 0) (float_of_Q 0) (float_of_Q 1))
             (Vec.mk binary64 (float_of_Q 0) (float_of_Q 1) (float_of_Q 0))
             (Vec.mk binary64 (float_of_Q 0) (float_of_Q 2) (float_of_Q 0))
             None 0%nat in
  let w' := Cam.move binary64 (Cam.forward w) w in
  Cam.at_ w = Vec.add binary64 (Cam.eye w) (Cam.forward w) /\
  PrimFloat.eqb (Vec.z (Cam.at_ w'))
                (Vec.z (Vec.add binary64 (Cam.eye w') (Cam.forward w')))
  = false.
Proof. vm_compute. split; reflexivity. Qed.

Lemma cam_key_case_yaw (A : Num.t)
  (rotate : Num.num A -> Vec.t A -> Vec.t A -> Vec.t A)
  (code : string) (w : Cam.t A) :
  In code Main.yaw_codes ->
  exists angle,
    (angle = Num.of_Q A (-5) \/ angle = Num.of_Q A 5) /\
    Cam.key_case A rotate code w = Cam.yaw_case A rotate angle w.
Proof.
  unfold Main.yaw_codes. cbn [In]. intros [<- | [<- | []]].
  - exists (Num.of_Q A (-5)). split; [now left | reflexivity].
  - exists (Num.of_Q A 5). split; [now right | reflexivity].
Qed.

(** C2, amended.  In any arithmetic, real or floating point: at startup
    [forward] is the normalization of [(0, 0, 1)], [eye] is [(0, 2, -5)]
    and [at] is [(0, 2, 0)], which is [eye + 5 * forward] (in the real
    numbers and in binary64 alike) and not [eye + forward]; every yaw key
    sets [forward] to a normalized vector and then [at] to
    [eye + forward]; every mouse look sets [forward] to a normalized
    vector; every move and strafe key adds one vector to [eye] and to
    [at] and leaves [forward] alone. *)
Theorem look_at_by_operation (A : Num.t)
  (rotate : Num.num A -> Vec.t A -> Vec.t A -> Vec.t A) (w : Cam.t A) :
  (Cam.forward (Cam.startup A)
   = Vec.normalize A
       (Vec.mk A (Num.of_Q A 0) (Num.of_Q A 0) (Num.of_Q A 1)) /\
   Cam.eye (Cam.startup A)
   = Vec.mk A (Num.of_Q A 0) (Num.of_Q A 2) (Num.of_Q A (-5)) /\
   Cam.at_ (Cam.startup A)
   = Vec.mk A (Num.of_Q A 0) (Num.of_Q A 2) (Num.of_Q A 0)) /\
  (Cam.at_ (Cam.startup real_numbers)
   = Vec.add real_numbers (Cam.eye (Cam.startup real_numbers))
       (Vec.mul real_numbers (Cam.forward (Cam.startup real_numbers))
          (Num.of_Q real_numbers 5)) /\
   Cam.at_ (Cam.startup binary64)
   = Vec.add binary64 (Cam.eye (Cam.startup binary64))
       (Vec.mul binary64 (Cam.forward (Cam.startup binary64))
          (Num.of_Q binary64 5))) /\
  (forall code,
     In code Main.yaw_codes ->
     exists angle,
       (angle = Num.of_Q A (-5) \/ angle = Num.of_Q A 5) /\
       Cam.forward (Cam.keydown A rotate code w)
       = Vec.normalize A (rotate angle (Cam.up w) (Cam.forward w)) /\
       Cam.eye (Cam.keydown A rotate code w) = Cam.eye w /\
       Cam.at_ (Cam.keydown A rotate code w)
       = Vec.add A (Cam.eye (Cam.keydown A rotate code w))
                   (Cam.forward (Cam.keydown A rotate code w))) /\
  (forall movementX,
     exists angle,
       Cam.forward (Cam.mousemove A rotate true movementX w)
       = Vec.normalize A (rotate angle (Cam.up w) (Cam.forward w))) /\
  (forall code,
     In code Main.movement_codes ->
     exists dirVec,
       Cam.eye (Cam.keydown A rotate code w)
       = Vec.add A (Cam.eye w) (Cam.moveVec A dirVec) /\
       Cam.at_ (Cam.keydown A rotate code w)
       = Vec.add A (Cam.at_ w) (Cam.moveVec A dirVec) /\
       Cam.forward (Cam.keydown A rotate code w) = Cam.forward w).
Proof.
  split; [repeat split|]. split; [split|].
  - (* real numbers *)
    destruct (same_camera_startup 1 fresh_context) as [He [Hf [_ Ha]]].
    rewrite He, Hf, Ha.
    destruct started_camera as [He' [Hf' [_ Ha']]].
    unfold started in He', Hf', Ha'. rewrite He', Hf', Ha'.
    change (Num.of_Q real_numbers 5) with (Q2R (5 # 1)).
    rewrite Q2R_integer.
    unfold vec_of, Vec.add, Vec.mul; cbn [Vec.x Vec.y Vec.z Vector3.x
      Vector3.y Vector3.z Num.add Num.mul real_numbers].
    f_equal; ring.
  - (* binary64 *)
    vm_compute. reflexivity.
  - split; [|split].
    + intros code Hc.
      destruct (cam_key_case_yaw A rotate code w Hc) as [angle [Ha Hk]].
      exists angle. split; [exact Ha|].
      destruct (cam_keydown A rotate code w) as [-> [-> [_ ->]]].
      rewrite Hk. repeat split.
    + intros mx. eexists. reflexivity.
    + intros code Hc.
      destruct (cam_key_case_movement A rotate code w Hc) as [d Hd].
      exists d. destruct (cam_keydown A rotate code w) as [-> [-> [_ ->]]].
      rewrite Hd. repeat split.
Qed.
